(** * PlainAPI: the document chunking and classification pipeline

    A shallow embedding of [src/core/utils.py], [src/data_ingestion/schemas.py]
    and [src/data_ingestion/document_processor.py], with the properties of the
    chunking pipeline proved against it.

    Conventions of the embedding:
    - a Python [str] is a [string]; its characters are the code points below
      256, so [ascii] is read as a code point, not as a UTF-8 byte;
    - a Python [int] is a [Z];
    - a Python [float] is a binary64 [float];
    - a [dict] with string keys is a [gmap string _];
    - a call either returns, raises (only [str(e)] of the exception is kept,
      as that is all the batch processor reads), or exhausts the fuel that
      bounds the iterations of a [while] loop. *)

From Stdlib Require Import ZArith NArith Ascii Floats Lia.
From Stdlib Require String.
From Stdlib Require Import DecimalString DecimalNat.
From stdpp Require Import base option list sorting strings gmap.

#[local] Open Scope Z_scope.

(** ** Outcomes of a call *)

Inductive result (A : Type) : Type :=
| Returned (a : A)
| Raised (exc : string)
| OutOfFuel.

Arguments Returned {A} a.
Arguments Raised {A} exc.
Arguments OutOfFuel {A}.

#[global] Instance result_ret : MRet result := λ A, Returned.

#[global] Instance result_bind : MBind result := λ A B k r,
  match r with
  | Returned a => k a
  | Raised exc => Raised exc
  | OutOfFuel => OutOfFuel
  end.

(** ** Built-in operations on [str] *)

Module Str.

Definition len (s : string) : Z := Z.of_nat (String.length s).

Definition nonempty (s : string) : bool :=
  match s with EmptyString => false | String _ _ => true end.

(** [str.isspace] on one character: Python's whitespace code points that
    lie below 256. *)
Definition isspace (c : ascii) : bool :=
  let n := nat_of_ascii c in
  ((9 <=? n) && (n <=? 13) || (28 <=? n) && (n <=? 32)
   || (n =? 133) || (n =? 160))%nat.

(** [str.lower] on one character: A-Z, and the upper-case letters of the
    Latin-1 block (0xC0-0xDE without the multiplication sign 0xD7). *)
Definition lower_char (c : ascii) : ascii :=
  let n := nat_of_ascii c in
  if ((65 <=? n) && (n <=? 90)
      || (192 <=? n) && (n <=? 222) && negb (n =? 215))%nat
  then ascii_of_nat (n + 32) else c.

Fixpoint lower (s : string) : string :=
  match s with
  | EmptyString => EmptyString
  | String c s' => String (lower_char c) (lower s')
  end.

Fixpoint lstrip (s : string) : string :=
  match s with
  | EmptyString => EmptyString
  | String c s' => if isspace c then lstrip s' else s
  end.

Fixpoint rstrip (s : string) : string :=
  match s with
  | EmptyString => EmptyString
  | String c s' =>
      match rstrip s' with
      | EmptyString => if isspace c then EmptyString else String c EmptyString
      | r => String c r
      end
  end.

(** [s.strip()] *)
Definition strip (s : string) : string := lstrip (rstrip s).

(** [needle in hay] *)
Fixpoint contains (needle hay : string) : bool :=
  String.prefix needle hay ||
  match hay with
  | EmptyString => false
  | String _ hay' => contains needle hay'
  end.

(** [c in chars] for a one-character string [c] *)
Definition char_in (c : ascii) (chars : string) : bool :=
  existsb (Ascii.eqb c) (String.list_ascii_of_string chars).

(** [text[i]], with Python's negative indices and its IndexError *)
Definition index (text : string) (i : Z) : result ascii :=
  let n := len text in
  let j := if i <? 0 then i + n else i in
  if (0 <=? j) && (j <? n) then
    match String.get (Z.to_nat j) text with
    | Some c => Returned c
    | None => Raised "string index out of range"
    end
  else Raised "string index out of range".

(** A slice bound brought into [0 .. len], as [text[a:b]] does *)
Definition clamp (n i : Z) : Z :=
  if i <? 0 then Z.max (i + n) 0 else Z.min i n.

(** [text[a:b]] *)
Definition slice (text : string) (a b : Z) : string :=
  let n := len text in
  let a' := clamp n a in
  let b' := clamp n b in
  String.substring (Z.to_nat a') (Z.to_nat (b' - a')) text.

(** [text[:b]] *)
Definition slice_to (text : string) (b : Z) : string := slice text 0 b.

(** [s.split(sep)] for a one-character separator *)
Fixpoint split (sep : ascii) (s : string) : list string :=
  match s with
  | EmptyString => [EmptyString]
  | String c s' =>
      if Ascii.eqb c sep then EmptyString :: split sep s'
      else match split sep s' with
           | [] => [String c EmptyString]
           | part :: parts => String c part :: parts
           end
  end.

(** [str(n)] for a non-negative [int] given as a [nat] *)
Definition of_nat (n : nat) : string := NilZero.string_of_uint (Nat.to_uint n).

(** [text.encode()]: UTF-8, one byte below 128 and two bytes from 128 to 255 *)
Definition encode_char (c : ascii) : list Z :=
  let n := Z.of_nat (nat_of_ascii c) in
  if n <? 128 then [n] else [Z.lor 192 (Z.shiftr n 6); Z.lor 128 (Z.land n 63)].

Fixpoint encode (s : string) : list Z :=
  match s with
  | EmptyString => []
  | String c s' => encode_char c ++ encode s'
  end.

End Str.

(** [range(a, b)] and [range(a, b, -1)] *)
Definition range (a b : Z) : list Z :=
  map (fun k => a + Z.of_nat k) (seq 0 (Z.to_nat (b - a))).

Definition range_down (a b : Z) : list Z :=
  map (fun k => a - Z.of_nat k) (seq 0 (Z.to_nat (a - b))).

(** ** [hashlib.md5]: RFC 1321 over 32-bit words held in [Z] *)

Module MD5.

Definition w32 (x : Z) : Z := x mod 2 ^ 32.

Definition rotl (x c : Z) : Z :=
  w32 (Z.lor (Z.shiftl x c) (Z.shiftr x (32 - c))).

Definition not32 (x : Z) : Z := Z.lxor x (2 ^ 32 - 1).

Definition shifts : list Z :=
  [7; 12; 17; 22; 7; 12; 17; 22; 7; 12; 17; 22; 7; 12; 17; 22;
   5; 9; 14; 20; 5; 9; 14; 20; 5; 9; 14; 20; 5; 9; 14; 20;
   4; 11; 16; 23; 4; 11; 16; 23; 4; 11; 16; 23; 4; 11; 16; 23;
   6; 10; 15; 21; 6; 10; 15; 21; 6; 10; 15; 21; 6; 10; 15; 21].

Definition sines : list Z :=
  [0xd76aa478; 0xe8c7b756; 0x242070db; 0xc1bdceee;
   0xf57c0faf; 0x4787c62a; 0xa8304613; 0xfd469501;
   0x698098d8; 0x8b44f7af; 0xffff5bb1; 0x895cd7be;
   0x6b901122; 0xfd987193; 0xa679438e; 0x49b40821;
   0xf61e2562; 0xc040b340; 0x265e5a51; 0xe9b6c7aa;
   0xd62f105d; 0x02441453; 0xd8a1e681; 0xe7d3fbc8;
   0x21e1cde6; 0xc33707d6; 0xf4d50d87; 0x455a14ed;
   0xa9e3e905; 0xfcefa3f8; 0x676f02d9; 0x8d2a4c8a;
   0xfffa3942; 0x8771f681; 0x6d9d6122; 0xfde5380c;
   0xa4beea44; 0x4bdecfa9; 0xf6bb4b60; 0xbebfbc70;
   0x289b7ec6; 0xeaa127fa; 0xd4ef3085; 0x04881d05;
   0xd9d4d039; 0xe6db99e5; 0x1fa27cf8; 0xc4ac5665;
   0xf4292244; 0x432aff97; 0xab9423a7; 0xfc93a039;
   0x655b59c3; 0x8f0ccc92; 0xffeff47d; 0x85845dd1;
   0x6fa87e4f; 0xfe2ce6e0; 0xa3014314; 0x4e0811a1;
   0xf7537e82; 0xbd3af235; 0x2ad7d2bb; 0xeb86d391].

(** The message, a 1 bit, zeros up to 56 modulo 64, and the length in bits
    as 8 little-endian bytes *)
Definition le_bytes (count : nat) (x : Z) : list Z :=
  map (fun k => Z.land (Z.shiftr x (8 * Z.of_nat k)) 255) (seq 0 count).

Definition pad (msg : list Z) : list Z :=
  let n := Z.of_nat (length msg) in
  let zeros := Z.to_nat ((55 - n) mod 64) in
  msg ++ [128] ++ replicate zeros 0 ++ le_bytes 8 ((8 * n) mod 2 ^ 64).

Definition word_of_bytes (bs : list Z) : Z :=
  foldr (fun b acc => b + 256 * acc) 0 bs.

Fixpoint words (count : nat) (bs : list Z) : list Z :=
  match count with
  | O => []
  | S count' => word_of_bytes (take 4 bs) :: words count' (drop 4 bs)
  end.

Record state := State { sa : Z; sb : Z; sc : Z; sd : Z }.

Definition init : state :=
  State 0x67452301 0xefcdab89 0x98badcfe 0x10325476.

Definition round (m : list Z) (st : state) (i : nat) : state :=
  let '(State a b c d) := st in
  let iz := Z.of_nat i in
  let '(f, g) :=
    if iz <? 16 then (Z.lor (Z.land b c) (Z.land (not32 b) d), iz)
    else if iz <? 32 then
      (Z.lor (Z.land d b) (Z.land (not32 d) c), (5 * iz + 1) mod 16)
    else if iz <? 48 then (Z.lxor b (Z.lxor c d), (3 * iz + 5) mod 16)
    else (Z.lxor c (Z.lor b (not32 d)), (7 * iz) mod 16) in
  let f' := w32 (f + a + nth i sines 0 + nth (Z.to_nat g) m 0) in
  State d (w32 (b + rotl f' (nth i shifts 0))) b c.

Definition block (st : state) (bs : list Z) : state :=
  let m := words 16 bs in
  let '(State a b c d) := foldl (round m) st (seq 0 64) in
  State (w32 (sa st + a)) (w32 (sb st + b)) (w32 (sc st + c)) (w32 (sd st + d)).

Fixpoint blocks (count : nat) (st : state) (bs : list Z) : state :=
  match count with
  | O => st
  | S count' => blocks count' (block st (take 64 bs)) (drop 64 bs)
  end.

Definition digest (msg : list Z) : list Z :=
  let padded := pad msg in
  let '(State a b c d) := blocks (length padded / 64)%nat init padded in
  le_bytes 4 a ++ le_bytes 4 b ++ le_bytes 4 c ++ le_bytes 4 d.

Definition hex_digit (n : Z) : ascii :=
  nth (Z.to_nat n) (String.list_ascii_of_string "0123456789abcdef") "0"%char.

Fixpoint hex (bs : list Z) : string :=
  match bs with
  | [] => EmptyString
  | b :: bs' => String (hex_digit (Z.shiftr b 4)) (String (hex_digit (Z.land b 15)) (hex bs'))
  end.

(** [hashlib.md5(data).hexdigest()] *)
Definition hexdigest (msg : list Z) : string := hex (digest msg).

End MD5.

(** ** [src/core/utils.py] *)

(** [generate_id]: the first 16 characters of the hexadecimal MD5 digest *)
Definition generate_id (text : string) : string :=
  Str.slice_to (MD5.hexdigest (Str.encode text)) 16.

(** The characters at which a window is snapped: ['.!?\n'] *)
Definition boundary_chars : string := String.append ".!?" (String "010"%char EmptyString).

(** Lines 52-55: scan backwards from [start] for a break point; [idxs] is
    [range(start, max(start - overlap, 0), -1)]. *)
Fixpoint snap_start (text : string) (idxs : list Z) (start : Z) : result Z :=
  match idxs with
  | [] => Returned start
  | i :: idxs' =>
      if i <? Str.len text then
        c ← Str.index text i;
        if Str.char_in c boundary_chars then Returned (i + 1)
        else snap_start text idxs' start
      else snap_start text idxs' start
  end.

(** Lines 59-62: scan forwards from [end] for a break point; [idxs] is
    [range(end, min(end + overlap, text_length))]. *)
Fixpoint snap_end (text : string) (idxs : list Z) (end_ : Z) : result Z :=
  match idxs with
  | [] => Returned end_
  | i :: idxs' =>
      c ← Str.index text i;
      if Str.char_in c boundary_chars then Returned (i + 1)
      else snap_end text idxs' end_
  end.

(** One iteration of the [while] loop (lines 47-68): the chunk it appends,
    if any, and the next value of [start]. *)
Definition chunk_step (text : string) (chunk_size overlap start : Z)
  : result (option string * Z) :=
  let text_length := Str.len text in
  let end_ := start + chunk_size in
  start' ← (if 0 <? start
             then snap_start text (range_down start (Z.max (start - overlap) 0)) start
             else Returned start);
  end' ← (if end_ <? text_length
           then snap_end text (range end_ (Z.min (end_ + overlap) text_length)) end_
           else Returned end_);
  let chunk := Str.strip (Str.slice text start' end') in
  Returned (if Str.nonempty chunk then Some chunk else None, end' - overlap).

(** The [while start < text_length] loop; [fuel] bounds its iterations. *)
Fixpoint chunk_loop (fuel : nat) (text : string) (chunk_size overlap start : Z)
  (chunks : list string) : result (list string) :=
  if start <? Str.len text then
    match fuel with
    | O => OutOfFuel
    | S fuel' =>
        step ← chunk_step text chunk_size overlap start;
        chunk_loop fuel' text chunk_size overlap step.2
          (match step.1 with Some c => chunks ++ [c] | None => chunks end)
    end
  else Returned chunks.

(** [chunk_text]; every caller in the pipeline passes both sizes, so the
    defaults of its signature are not modelled. *)
Definition chunk_text (fuel : nat) (text : string) (chunk_size overlap : Z)
  : result (list string) :=
  if Str.nonempty text then chunk_loop fuel text chunk_size overlap 0 []
  else Returned [].


(** ** The runtime the pipeline reads

    What the interpreter and its libraries decide, and the source does not:
    the wall clock behind [time.time()] and [datetime.utcnow()], the matcher
    behind [re.findall], and the iteration order of a [set]. The clock is
    indexed by the number of readings taken so far. *)

Record datetime := Datetime {
  year : nat; month : nat; day : nat;
  hour : nat; minute : nat; second : nat; microsecond : nat
}.

Class Runtime := {
  clock_time : nat → float;
  clock_utcnow : nat → datetime;
  re_findall_ignorecase : string → string → list string;
  list_of_set : list string → list string
}.

(** [str(n).zfill(width)], the padding of the fields of [isoformat] *)
Definition zfill (width n : nat) : string :=
  let digits := Str.of_nat n in
  String.append (String.string_of_list_ascii
                   (replicate (width - String.length digits) "0"%char))
                digits.

(** [datetime.isoformat()] of a naive datetime *)
Definition isoformat (d : datetime) : string :=
  String.concat ""
    ([zfill 4 (year d); "-"; zfill 2 (month d); "-"; zfill 2 (day d); "T";
      zfill 2 (hour d); ":"; zfill 2 (minute d); ":"; zfill 2 (second d)]
     ++ (if (microsecond d =? 0)%nat then [] else ["."; zfill 6 (microsecond d)])).

(** The state a call can change: how often the clock has been read, and the
    messages handed to [logger.error]. *)
Record World := { clock_reads : nat; error_log : list string }.

(** A call in a world: its outcome and the world it leaves. *)
Definition Py (A : Type) : Type := World → result A * World.

#[global] Instance Py_ret : MRet Py := λ A a w, (Returned a, w).

#[global] Instance Py_bind : MBind Py := λ A B k m w,
  match m w with
  | (Returned a, w') => k a w'
  | (Raised exc, w') => (Raised exc, w')
  | (OutOfFuel, w') => (OutOfFuel, w')
  end.

Definition lift {A : Type} (r : result A) : Py A := λ w, (r, w).

Definition tick (w : World) : World :=
  {| clock_reads := S (clock_reads w); error_log := error_log w |}.

Definition time_time `{Runtime} : Py float :=
  λ w, (Returned (clock_time (clock_reads w)), tick w).

Definition datetime_utcnow `{Runtime} : Py datetime :=
  λ w, (Returned (clock_utcnow (clock_reads w)), tick w).

Definition logger_error (msg : string) : Py () :=
  λ w, (Returned (), {| clock_reads := clock_reads w;
                        error_log := error_log w ++ [msg] |}).

(** ** [src/data_ingestion/schemas.py] *)

Inductive DocumentType :=
| API_ENDPOINT | PARAMETER | EXAMPLE | RESPONSE_SCHEMA
| ERROR_CODE | OVERVIEW | TUTORIAL.

#[global] Instance DocumentType_eq_dec : EqDecision DocumentType.
Proof. solve_decision. Defined.

Definition DocumentType_value (t : DocumentType) : string :=
  match t with
  | API_ENDPOINT => "api_endpoint"
  | PARAMETER => "parameter"
  | EXAMPLE => "example"
  | RESPONSE_SCHEMA => "response_schema"
  | ERROR_CODE => "error_code"
  | OVERVIEW => "overview"
  | TUTORIAL => "tutorial"
  end.

(** The values the pipeline stores in a metadata [dict] *)
Inductive pyval :=
| PStr (s : string)
| PInt (z : Z)
| PList (l : list string).

Module APIDocument.

Record t := Build {
  id : string;
  content : string;
  document_type : DocumentType;
  source_url : string;
  api_endpoint : option pyval;
  metadata : gmap string pyval;
  embedding : option (list float);
  created_at : datetime;
  updated_at : datetime
}.

(** The validator of [id]. [v] is the value given for [id], [None] for
    Python's [None]; [values] holds the fields validated so far, of which
    the validator reads two that are declared [str]. *)
Definition generate_id_if_missing (v : option string) (values : gmap string string)
  : string :=
  match v with
  | None =>
      let content := default "" (values !! "content") in
      let source := default "" (values !! "source_url") in
      let combined := String.append (Str.slice_to content 100) source in
      Str.slice_to (MD5.hexdigest (Str.encode combined)) 16
  | Some v => v
  end.

(** The fields in the order of their declaration, lines 18-29. pydantic
    validates them in this order and hands a validator, as [values], the
    fields validated before its own. *)
Definition fields : list string :=
  ["id"; "content"; "document_type"; "source_url"; "api_endpoint"; "metadata";
   "embedding"; "created_at"; "updated_at"].

Fixpoint fields_before (field : string) (names : list string) : list string :=
  match names with
  | [] => []
  | name :: names' =>
      if String.eqb name field then [] else name :: fields_before field names'
  end.

(** [values] as the validators of [field] receive it when a document is built
    from the arguments [given] *)
Definition values_for (field : string) (given : gmap string string)
  : gmap string string :=
  filter (λ item : string * string, item.1 ∈ fields_before field fields) given.

(** The id of [APIDocument(id=v, **given)]: the validator is declared for
    [id] with [pre=True] and runs on [v] as it is given. *)
Definition validated_id (v : option string) (given : gmap string string) : string :=
  generate_id_if_missing v (values_for "id" given).

(** [APIDocument(id=..., content=..., document_type=..., source_url=...,
    api_endpoint=..., metadata=...)] as [_create_chunks] calls it: the
    arguments are stored as given (the validator of [id] returns a given id
    as it is; the document type is kept as the enumeration member, whose
    string is [DocumentType_value]), [embedding] takes its default and the
    two timestamps read the clock. *)
Definition new `{Runtime} (id content : string) (document_type : DocumentType)
  (source_url : string) (api_endpoint : option pyval)
  (metadata : gmap string pyval) : Py t :=
  created_at ← datetime_utcnow;
  updated_at ← datetime_utcnow;
  mret (Build id content document_type source_url api_endpoint metadata None
          created_at updated_at).

End APIDocument.

Module RawDocument.

Record t := Build {
  url : string;
  content : string;
  content_type : string;
  headers : gmap string string;
  timestamp : datetime
}.

End RawDocument.

Module ProcessedDocument.

Record t := Build {
  original_url : string;
  chunks : list APIDocument.t;
  total_chunks : Z;
  processing_time : float;
  errors : list string
}.

End ProcessedDocument.

(** ** [src/core/config.py]: the two settings the processor reads *)

Module Settings.

Record t := Build { chunk_size : Z; chunk_overlap : Z }.

Definition defaults : t := {| chunk_size := 1000; chunk_overlap := 200 |}.

End Settings.

(** ** [src/data_ingestion/document_processor.py] *)

(** [list(enumerate(xs, start))] *)
Fixpoint enumerate_from {A : Type} (start : nat) (xs : list A) : list (nat * A) :=
  match xs with
  | [] => []
  | x :: xs' => (start, x) :: enumerate_from (S start) xs'
  end.

Definition enumerate {A : Type} (xs : list A) : list (nat * A) := enumerate_from 0 xs.

Module DocumentProcessor.

Record t := Build { chunk_size : Z; chunk_overlap : Z }.

(** [x or y] on an optional [int]: [None] and [0] are falsy *)
Definition int_or (x : option Z) (y : Z) : Z :=
  match x with
  | Some n => if n =? 0 then y else n
  | None => y
  end.

(** [__init__] *)
Definition init (settings : Settings.t) (chunk_size chunk_overlap : option Z) : t :=
  {| chunk_size := int_or chunk_size (Settings.chunk_size settings);
     chunk_overlap := int_or chunk_overlap (Settings.chunk_overlap settings) |}.

(** [_classify_document] *)
Definition _classify_document (raw_doc : RawDocument.t) : DocumentType :=
  let url := Str.lower (RawDocument.url raw_doc) in
  let content := Str.lower (RawDocument.content raw_doc) in
  if Str.contains "example" content || Str.contains "example" url then EXAMPLE
  else if Str.contains "parameter" content || Str.contains "param" url then PARAMETER
  else if Str.contains "response" content || Str.contains "schema" content
  then RESPONSE_SCHEMA
  else if Str.contains "error" content || Str.contains "status" content then ERROR_CODE
  else if Str.contains "tutorial" content || Str.contains "guide" content then TUTORIAL
  else if Str.contains "/#" url || Str.contains "endpoint" content then API_ENDPOINT
  else OVERVIEW.

(** The three patterns of [_extract_parameters]; [dq] is the double quote. *)
Definition dq : string := String "034"%char EmptyString.

Definition parameter_patterns : list string :=
  [String.concat dq ["parameter[\s:]+["; "\']?(\w+)["; "\']?"];
   "[\s{]+(\w+)[\s}]+\(string\)";
   String.concat dq ["query.*parameter.*[:=]\s*["; "\'](\w+)["; "\']"]].

(** [_extract_parameters] *)
Definition _extract_parameters `{Runtime} (content : string) : list string :=
  let parameters :=
    foldl (λ parameters pattern, parameters ++ re_findall_ignorecase pattern content)
          [] parameter_patterns in
  list_of_set parameters.

(** Lines 98-102: the part after the first part that is exactly ["#"], when
    there is one. *)
Fixpoint endpoint_after_hash (parts : list string) : option string :=
  match parts with
  | [] => None
  | part :: parts' =>
      if String.eqb part "#" then head parts' else endpoint_after_hash parts'
  end.

(** [_extract_metadata] *)
Definition _extract_metadata `{Runtime} (raw_doc : RawDocument.t) (doc_type : DocumentType)
  : gmap string pyval :=
  let metadata : gmap string pyval :=
    <["url" := PStr (RawDocument.url raw_doc)]>
    (<["scraped_at" := PStr (isoformat (RawDocument.timestamp raw_doc))]>
    (<["document_type" := PStr (DocumentType_value doc_type)]>
    (<["source_type" := PStr (RawDocument.content_type raw_doc)]> ∅))) in
  let metadata :=
    if Str.contains "api.nasa.gov" (RawDocument.url raw_doc) then
      match endpoint_after_hash (Str.split "/" (RawDocument.url raw_doc)) with
      | Some endpoint => <["api_endpoint" := PStr endpoint]> metadata
      | None => metadata
      end
    else metadata in
  if decide (doc_type = PARAMETER)
  then <["extracted_parameters" :=
          PList (_extract_parameters (RawDocument.content raw_doc))]> metadata
  else metadata.

(** Lines 135-154: the loop over [enumerate(text_chunks)]; [total] is
    [len(text_chunks)]. *)
Fixpoint create_chunks_loop `{Runtime} (url : string) (doc_type : DocumentType)
  (metadata : gmap string pyval) (total : nat)
  (items : list (nat * string)) (chunks : list APIDocument.t)
  : Py (list APIDocument.t) :=
  match items with
  | [] => mret chunks
  | (i, chunk_content) :: items' =>
      if Str.len (Str.strip chunk_content) <? 50
      then create_chunks_loop url doc_type metadata total items' chunks
      else
        doc ← APIDocument.new
                 (generate_id (url +:+ "_" +:+ Str.of_nat i))
                 chunk_content doc_type url
                 (metadata !! "api_endpoint")
                 (<["chunk_size" := PInt (Str.len chunk_content)]>
                  (<["total_chunks" := PInt (Z.of_nat total)]>
                  (<["chunk_index" := PInt (Z.of_nat i)]> metadata)));
        create_chunks_loop url doc_type metadata total items' (chunks ++ [doc])
  end.

(** [_create_chunks] *)
Definition _create_chunks `{Runtime} (fuel : nat) (self : t) (content url : string)
  (doc_type : DocumentType) (metadata : gmap string pyval)
  : Py (list APIDocument.t) :=
  text_chunks ← lift (chunk_text fuel content (chunk_size self) (chunk_overlap self));
  create_chunks_loop url doc_type metadata (length text_chunks)
    (enumerate text_chunks) [].

(** [_process_single_document] *)
Definition _process_single_document `{Runtime} (fuel : nat) (self : t)
  (raw_doc : RawDocument.t) : Py ProcessedDocument.t :=
  start_time ← time_time;
  let doc_type := _classify_document raw_doc in
  let metadata := _extract_metadata raw_doc doc_type in
  chunks ← _create_chunks fuel self (RawDocument.content raw_doc)
             (RawDocument.url raw_doc) doc_type metadata;
  end_time ← time_time;
  let processing_time := (end_time - start_time)%float in
  mret {| ProcessedDocument.original_url := RawDocument.url raw_doc;
          ProcessedDocument.chunks := chunks;
          ProcessedDocument.total_chunks := Z.of_nat (length chunks);
          ProcessedDocument.processing_time := processing_time;
          ProcessedDocument.errors := [] |}.

(** The result recorded for a document whose processing raised [e] *)
Definition failed (raw_doc : RawDocument.t) (e : string) : ProcessedDocument.t :=
  {| ProcessedDocument.original_url := RawDocument.url raw_doc;
     ProcessedDocument.chunks := [];
     ProcessedDocument.total_chunks := 0;
     ProcessedDocument.processing_time := 0%float;
     ProcessedDocument.errors := [e] |}.

(** Lines 24-38: the loop over [raw_docs] with its [try] and [except]. *)
Fixpoint process_loop `{Runtime} (fuel : nat) (self : t)
  (raw_docs : list RawDocument.t) (processed_docs : list ProcessedDocument.t)
  : Py (list ProcessedDocument.t) :=
  match raw_docs with
  | [] => mret processed_docs
  | raw_doc :: raw_docs' => λ w,
      match _process_single_document fuel self raw_doc w with
      | (Returned processed, w') =>
          process_loop fuel self raw_docs' (processed_docs ++ [processed]) w'
      | (Raised e, w') =>
          (logger_error
             (String.concat ""
                ["Error processing document from "; RawDocument.url raw_doc; ": "; e]);;
           process_loop fuel self raw_docs' (processed_docs ++ [failed raw_doc e])) w'
      | (OutOfFuel, w') => (OutOfFuel, w')
      end
  end.

(** [process_raw_documents] *)
Definition process_raw_documents `{Runtime} (fuel : nat) (self : t)
  (raw_docs : list RawDocument.t) : Py (list ProcessedDocument.t) :=
  process_loop fuel self raw_docs [].

End DocumentProcessor.

(** ** Definitions used to state the properties *)

(** The classifier as the specification words it: seven rules over the
    lower-cased [(url, content)], tried in order, the first match giving the
    type and the last rule matching everything. *)
Definition classification_rules : list ((string → string → bool) * DocumentType) :=
  [ (λ url content, Str.contains "example" content || Str.contains "example" url, EXAMPLE);
    (λ url content, Str.contains "parameter" content || Str.contains "param" url, PARAMETER);
    (λ url content, Str.contains "response" content || Str.contains "schema" content,
      RESPONSE_SCHEMA);
    (λ url content, Str.contains "error" content || Str.contains "status" content, ERROR_CODE);
    (λ url content, Str.contains "tutorial" content || Str.contains "guide" content, TUTORIAL);
    (λ url content, Str.contains "/#" url || Str.contains "endpoint" content, API_ENDPOINT);
    (λ _ _, true, OVERVIEW) ].

Fixpoint first_match (rules : list ((string → string → bool) * DocumentType))
  (url content : string) : option DocumentType :=
  match rules with
  | [] => None
  | (applies, label) :: rules' =>
      if applies url content then Some label else first_match rules' url content
  end.

Definition classify_by_rules (url content : string) : option DocumentType :=
  first_match classification_rules (Str.lower url) (Str.lower content).

(** The longest chunk the segmenter can produce: the window, a start
    snapped back and an end snapped forward. *)
Definition max_chunk_len (chunk_size overlap : Z) : Z :=
  chunk_size + overlap + Z.max 0 (overlap - 2).

(** The segmenter's constraints on a processor's configuration *)
Definition well_configured (self : DocumentProcessor.t) : Prop :=
  0 < DocumentProcessor.chunk_size self
  ∧ 0 ≤ DocumentProcessor.chunk_overlap self < DocumentProcessor.chunk_size self.

(** The degenerate-chunk filter: a segment is kept when its trimmed text has
    at least 50 characters. *)
Definition kept (segment : string) : bool := 50 <=? Str.len (Str.strip segment).

Definition kept_item (item : nat * string) : bool := kept item.2.

(** The chunk built for the segment at raw position [i] out of [total] *)
Definition chunk_of (url : string) (doc_type : DocumentType)
  (metadata : gmap string pyval) (total : nat) (item : nat * string)
  (doc : APIDocument.t) : Prop :=
  APIDocument.id doc = generate_id (url +:+ "_" +:+ Str.of_nat item.1)
  ∧ APIDocument.content doc = item.2
  ∧ APIDocument.document_type doc = doc_type
  ∧ APIDocument.source_url doc = url
  ∧ APIDocument.api_endpoint doc = metadata !! "api_endpoint"
  ∧ APIDocument.embedding doc = None
  ∧ APIDocument.metadata doc =
      <["chunk_size" := PInt (Str.len item.2)]>
      (<["total_chunks" := PInt (Z.of_nat total)]>
      (<["chunk_index" := PInt (Z.of_nat item.1)]> metadata)).

Definition is_hex_char (c : ascii) : bool := Str.char_in c "0123456789abcdef".

Definition is_hex16 (s : string) : Prop :=
  String.length s = 16%nat
  ∧ Forall (λ c, is_hex_char c = true) (String.list_ascii_of_string s).

Definition chunk_index (doc : APIDocument.t) : option pyval :=
  APIDocument.metadata doc !! "chunk_index".

(** What the batch processor records for one document: the document that
    [_process_single_document] returned for it in some world, which has no
    error, or, when that call raised [e], the failed document carrying [e]
    and nothing else. *)
Definition recorded_for `{Runtime} (fuel : nat) (self : DocumentProcessor.t)
  (raw_doc : RawDocument.t) (pd : ProcessedDocument.t) : Prop :=
  ProcessedDocument.original_url pd = RawDocument.url raw_doc
  ∧ ((∃ w0 w1,
        DocumentProcessor._process_single_document fuel self raw_doc w0
        = (Returned pd, w1)
        ∧ ProcessedDocument.errors pd = [])
     ∨ (∃ w0 w1 e,
          DocumentProcessor._process_single_document fuel self raw_doc w0
          = (Raised e, w1)
          ∧ ProcessedDocument.chunks pd = []
          ∧ ProcessedDocument.total_chunks pd = 0
          ∧ ProcessedDocument.processing_time pd = 0%float
          ∧ ProcessedDocument.errors pd = [e])).

(** The segmenter does not run out of fuel on the document's content. *)
Definition segmentable (fuel : nat) (self : DocumentProcessor.t)
  (raw_doc : RawDocument.t) : Prop :=
  chunk_text fuel (RawDocument.content raw_doc) (DocumentProcessor.chunk_size self)
    (DocumentProcessor.chunk_overlap self) ≠ OutOfFuel.

(** ** Sample inputs *)

Definition repeat_char (c : ascii) (n : nat) : string :=
  String.string_of_list_ascii (replicate n c).

Fixpoint quarter_seconds (n : nat) : float :=
  match n with
  | O => 0%float
  | S n' => (quarter_seconds n' + 0.25)%float
  end.

Definition sample_runtime : Runtime :=
  {| clock_time := quarter_seconds;
     clock_utcnow := λ n, Datetime 2024 1 15 12 30 n 0;
     re_findall_ignorecase := λ _ _, [];
     list_of_set := λ xs, xs |}.

Definition sample_world : World := {| clock_reads := 0; error_log := [] |}.

Definition sample_doc (url content : string) : RawDocument.t :=
  RawDocument.Build url content "html" ∅ (Datetime 2024 1 15 12 0 0 0).

(** The text arguments of [APIDocument(id=None, content=..., source_url=...,
    document_type=...)] *)
Definition sample_arguments (content source_url : string) : gmap string string :=
  <["source_url" := source_url]> (<["content" := content]> ∅).

(** 60 letters, 70 blanks and 100 letters: with windows of 60 and an overlap
    of 5, the segments at positions 1, 2 and 4 are short after trimming. *)
Definition gappy_text : string :=
  repeat_char "a" 60 +:+ repeat_char " " 70 +:+ repeat_char "b" 100.

Definition small_processor : DocumentProcessor.t := DocumentProcessor.Build 60 5.

(** A configuration outside the segmenter's constraints, under which a
    non-empty text is indexed out of range. *)
Definition negative_processor : DocumentProcessor.t := DocumentProcessor.Build (-5) 3.

(** Three documents under [negative_processor]: the second one, the only one
    with text, raises. *)
Definition three_docs : list RawDocument.t :=
  [sample_doc "http://a" ""; sample_doc "http://b" "abc"; sample_doc "http://c" ""].

(** ** Further built-in operations on [str] *)

Module StrOps.

(** [s.replace(old, new)] for a one-character [old] *)
Fixpoint replace (old : ascii) (new : string) (s : string) : string :=
  match s with
  | EmptyString => EmptyString
  | String c s' =>
      if Ascii.eqb c old then String.append new (replace old new s')
      else String c (replace old new s')
  end.

(** [s.split(sep)] for a separator of any positive length, scanning from the
    left; [skip] counts the characters of a separator still to pass over and
    [part] is the part read so far. *)
Fixpoint split_str_from (sep : string) (skip : nat) (part : string) (s : string)
  : list string :=
  match s with
  | EmptyString => [part]
  | String c s' =>
      match skip with
      | S skip' => split_str_from sep skip' part s'
      | O =>
          if String.prefix sep s
          then part :: split_str_from sep (String.length sep - 1) EmptyString s'
          else split_str_from sep 0 (String.append part (String c EmptyString)) s'
      end
  end.

Definition split_str (sep s : string) : list string :=
  split_str_from sep 0 EmptyString s.

End StrOps.

(** ** [str] over all of Unicode

    [clean_text] names characters above U+00FF, so its texts are modelled as
    the lists of their code points. *)

Module UStr.

(** The code points for which [str.isspace] holds, as ranges *)
Definition whitespace : list (N * N) :=
  [(0x9, 0xd); (0x1c, 0x20); (0x85, 0x85); (0xa0, 0xa0); (0x1680, 0x1680);
   (0x2000, 0x200a); (0x2028, 0x2029); (0x202f, 0x202f); (0x205f, 0x205f);
   (0x3000, 0x3000)]%N.

(** [c.isspace()] *)
Definition isspace (c : N) : bool :=
  existsb (λ range : N * N, (range.1 <=? c)%N && (c <=? range.2)%N) whitespace.

Definition nonempty (s : list N) : bool :=
  match s with [] => false | _ :: _ => true end.

Fixpoint lstrip (s : list N) : list N :=
  match s with
  | [] => []
  | c :: s' => if isspace c then lstrip s' else s
  end.

Fixpoint rstrip (s : list N) : list N :=
  match s with
  | [] => []
  | c :: s' =>
      match rstrip s' with
      | [] => if isspace c then [] else [c]
      | r => c :: r
      end
  end.

(** [s.strip()] *)
Definition strip (s : list N) : list N := lstrip (rstrip s).

(** [s.split(sep)] for a one-character separator *)
Fixpoint split (sep : N) (s : list N) : list (list N) :=
  match s with
  | [] => [[]]
  | c :: s' =>
      if (c =? sep)%N then [] :: split sep s'
      else match split sep s' with
           | [] => [[c]]
           | part :: parts => (c :: part) :: parts
           end
  end.

(** [sep.join(parts)] *)
Fixpoint join (sep : list N) (parts : list (list N)) : list N :=
  match parts with
  | [] => []
  | part :: parts' =>
      match parts' with
      | [] => part
      | _ :: _ => part ++ sep ++ join sep parts'
      end
  end.

(** The maximal runs of characters for which [p] does not hold *)
Fixpoint runs (p : N → bool) (s : list N) : list (list N) :=
  match s with
  | [] => []
  | c :: s' =>
      if p c then runs p s'
      else match s' with
           | [] => [[c]]
           | d :: _ =>
               if p d then [c] :: runs p s'
               else match runs p s' with
                    | word :: words => (c :: word) :: words
                    | [] => [[c]]
                    end
           end
  end.

(** [s.split()]: the maximal runs of characters that are not whitespace *)
Definition split_whitespace (s : list N) : list (list N) := runs isspace s.

(** [s.replace(old, new)] for a one-character [old] *)
Fixpoint replace (old : N) (new : list N) (s : list N) : list N :=
  match s with
  | [] => []
  | c :: s' =>
      if (c =? old)%N then new ++ replace old new s' else c :: replace old new s'
  end.

(** Whether a text begins inside a run *)
Definition starts_run (p : N → bool) (s : list N) : bool :=
  match s with
  | [] => false
  | c :: _ => negb (p c)
  end.

(** A run: not empty, and free of the characters for which [p] holds *)
Definition is_run (p : N → bool) (w : list N) : Prop :=
  w ≠ [] ∧ Forall (λ c, p c = false) w.

(** A word: not empty and free of whitespace *)
Definition is_word (w : list N) : Prop := is_run isspace w.

(** A text of characters below U+0100 *)
Definition of_string (s : string) : list N :=
  map N_of_ascii (String.list_ascii_of_string s).

End UStr.

(** ** [src/core/utils.py], continued *)

(** The noise patterns of [clean_text], line 83: tab, carriage return,
    no-break space, zero-width space, left-to-right mark and right-to-left
    mark, each one character. *)
Definition noise_patterns : list N := [0x9; 0xd; 0xa0; 0x200b; 0x200e; 0x200f]%N.

(** [clean_text] *)
Definition clean_text (text : list N) : list N :=
  if UStr.nonempty text then
    let lines := map UStr.strip (UStr.split 0xa text) in
    let lines := List.filter UStr.nonempty lines in
    let cleaned := UStr.join [0x20%N] lines in
    let cleaned :=
      foldl (λ cleaned pattern, UStr.replace pattern [0x20%N] cleaned)
            cleaned noise_patterns in
    UStr.join [0x20%N] (UStr.split_whitespace cleaned)
  else [].

(** The characters that end a word of a cleaned text: whitespace and the
    noise patterns *)
Definition blank (c : N) : bool :=
  UStr.isspace c || existsb (N.eqb c) noise_patterns.

(** ** Saving documents to disk

    [NASADocumentationScraper.save_raw_documents] and
    [DocumentProcessor.save_processed_documents]. A directory is the map from
    the names of its files to their contents; the paths the functions build,
    [settings.raw_docs_path / name] and [settings.processed_docs_path / name],
    are kept as the names. [dump] is the text that [json.dump] writes for a
    document; opening and writing a file are taken to succeed. *)

(** Lines 129-133 of [nasa_scraper.py]: the file name of the document at
    position [i] *)
Definition raw_document_filename (i : nat) (doc : RawDocument.t) : string :=
  let filename :=
    StrOps.replace "?" "_"
      (StrOps.replace "/" "_"
         (List.last (StrOps.split_str "//" (RawDocument.url doc)) EmptyString)) in
  let filename :=
    if 100 <? Str.len filename then Str.slice_to filename 100 else filename in
  zfill 3 i +:+ "_" +:+ filename +:+ ".json".

Fixpoint save_raw_loop (dump : RawDocument.t → string)
  (items : list (nat * RawDocument.t)) (saved_paths : list string)
  (directory : gmap string string) : list string * gmap string string :=
  match items with
  | [] => (saved_paths, directory)
  | (i, doc) :: items' =>
      let filepath := raw_document_filename i doc in
      save_raw_loop dump items' (saved_paths ++ [filepath])
        (<[filepath := dump doc]> directory)
  end.

(** [save_raw_documents] *)
Definition save_raw_documents (dump : RawDocument.t → string)
  (documents : list RawDocument.t) (directory : gmap string string)
  : list string * gmap string string :=
  save_raw_loop dump (enumerate documents) [] directory.

(** Line 163 of [document_processor.py]: the file name of the processed
    document at position [i] *)
Definition processed_document_filename (i : nat) (proc_doc : ProcessedDocument.t)
  : string :=
  "processed_" +:+ zfill 3 i +:+ "_"
  +:+ generate_id (ProcessedDocument.original_url proc_doc) +:+ ".json".

Fixpoint save_processed_loop (dump : ProcessedDocument.t → string)
  (items : list (nat * ProcessedDocument.t)) (saved_paths : list string)
  (directory : gmap string string) : list string * gmap string string :=
  match items with
  | [] => (saved_paths, directory)
  | (i, proc_doc) :: items' =>
      let filepath := processed_document_filename i proc_doc in
      save_processed_loop dump items' (saved_paths ++ [filepath])
        (<[filepath := dump proc_doc]> directory)
  end.

(** [save_processed_documents] *)
Definition save_processed_documents (dump : ProcessedDocument.t → string)
  (processed_docs : list ProcessedDocument.t) (directory : gmap string string)
  : list string * gmap string string :=
  save_processed_loop dump (enumerate processed_docs) [] directory.

(** The pattern of both loops: write each item under its name, in order *)
Fixpoint save_loop {A : Type} (name : nat → A → string) (dump : A → string)
  (items : list (nat * A)) (saved_paths : list string)
  (directory : gmap string string) : list string * gmap string string :=
  match items with
  | [] => (saved_paths, directory)
  | (i, x) :: items' =>
      save_loop name dump items' (saved_paths ++ [name i x])
        (<[name i x := dump x]> directory)
  end.

(** The number a file name starts with, read back *)
Definition is_digit (c : ascii) : bool := Str.char_in c "0123456789".

Definition parse_nat (s : string) : option nat :=
  option_map Nat.of_uint (NilZero.uint_of_string s).

(** ** The windows of the segmenter

    The loop of [chunk_text] read for the windows it cuts rather than for the
    chunks it keeps: [chunk_window] is the start and the end of one
    iteration after snapping (lines 47-62), [window_chunk] what the iteration
    appends for it (lines 64-66). *)

Definition chunk_window (text : string) (chunk_size overlap start : Z)
  : result (Z * Z) :=
  let text_length := Str.len text in
  let end_ := start + chunk_size in
  start' ← (if 0 <? start
             then snap_start text (range_down start (Z.max (start - overlap) 0)) start
             else Returned start);
  end' ← (if end_ <? text_length
           then snap_end text (range end_ (Z.min (end_ + overlap) text_length)) end_
           else Returned end_);
  Returned (start', end').

Definition window_chunk (text : string) (window : Z * Z) : option string :=
  let chunk := Str.strip (Str.slice text window.1 window.2) in
  if Str.nonempty chunk then Some chunk else None.

(** The chunks kept for a list of windows *)
Definition window_chunks (text : string) (windows : list (Z * Z)) : list string :=
  omap (window_chunk text) windows.

Fixpoint window_loop (fuel : nat) (text : string) (chunk_size overlap start : Z)
  (windows : list (Z * Z)) : result (list (Z * Z)) :=
  if start <? Str.len text then
    match fuel with
    | O => OutOfFuel
    | S fuel' =>
        window ← chunk_window text chunk_size overlap start;
        window_loop fuel' text chunk_size overlap (window.2 - overlap)
          (windows ++ [window])
    end
  else Returned windows.

Definition chunk_windows (fuel : nat) (text : string) (chunk_size overlap : Z)
  : result (list (Z * Z)) :=
  if Str.nonempty text then window_loop fuel text chunk_size overlap 0 []
  else Returned [].

(** ** What the pipeline script reads off a batch

    [scripts/scrape_nasa_docs.py], lines 48 and 61-63: the number of chunks it
    reports and the chunks it embeds and stores. *)

Definition script_total_chunks (processed_docs : list ProcessedDocument.t) : Z :=
  foldr Z.add 0 (map (λ doc, Z.of_nat (length (ProcessedDocument.chunks doc)))
                   processed_docs).

Definition script_all_chunks (processed_docs : list ProcessedDocument.t)
  : list APIDocument.t :=
  foldl (λ all_chunks proc_doc, all_chunks ++ ProcessedDocument.chunks proc_doc)
        [] processed_docs.

(** The messages [process_raw_documents] hands to [logger.error] for the
    results of a batch: one for each error of each document. *)
Definition error_messages (processed_docs : list ProcessedDocument.t) : list string :=
  flat_map (λ doc,
              map (λ e, String.concat ""
                          ["Error processing document from ";
                           ProcessedDocument.original_url doc; ": "; e])
                  (ProcessedDocument.errors doc))
           processed_docs.

(** A processed document counts its chunks, and has either no error or one
    error, no chunk and no processing time. *)
Definition well_formed_result (pd : ProcessedDocument.t) : Prop :=
  ProcessedDocument.total_chunks pd = Z.of_nat (length (ProcessedDocument.chunks pd))
  ∧ (ProcessedDocument.errors pd = []
     ∨ ∃ e, ProcessedDocument.errors pd = [e]
            ∧ ProcessedDocument.chunks pd = []
            ∧ ProcessedDocument.processing_time pd = 0%float).

(** ** The embedding step of the pipeline script

    [scripts/scrape_nasa_docs.py], lines 67-75: the chunks are embedded in
    batches of 32 and each chunk is given its vector. The chunks of a batch
    are the objects of [all_chunks] at the batch's positions, each created by
    its own [APIDocument(...)] call, so an assignment changes the list at
    that position and nowhere else. *)

(** [range(a, b, step)] for a positive [step] *)
Definition range_step (a b step : Z) : list Z :=
  map (λ k, a + Z.of_nat k * step) (seq 0 (Z.to_nat ((b - a + step - 1) / step))).

(** [l[a:b]] on a list *)
Definition list_slice {A : Type} (l : list A) (a b : Z) : list A :=
  let n := Z.of_nat (length l) in
  let a' := Str.clamp n a in
  let b' := Str.clamp n b in
  take (Z.to_nat (b' - a')) (drop (Z.to_nat a') l).

(** [chunk.embedding = embedding] *)
Definition set_embedding (chunk : APIDocument.t) (embedding : list float)
  : APIDocument.t :=
  APIDocument.Build (APIDocument.id chunk) (APIDocument.content chunk)
    (APIDocument.document_type chunk) (APIDocument.source_url chunk)
    (APIDocument.api_endpoint chunk) (APIDocument.metadata chunk)
    (Some embedding) (APIDocument.created_at chunk) (APIDocument.updated_at chunk).

(** [for chunk, embedding in zip(batch, embeddings): chunk.embedding = embedding].
    [zip] stops at the shorter of the two; the chunks left keep their
    embedding. *)
Fixpoint assign_embeddings (batch : list APIDocument.t)
  (embeddings : list (list float)) : list APIDocument.t :=
  match batch, embeddings with
  | chunk :: batch', embedding :: embeddings' =>
      set_embedding chunk embedding :: assign_embeddings batch' embeddings'
  | _, _ => batch
  end.

Definition script_batch_size : Z := 32.

(** One round of the loop, for the batch that starts at [i].
    [embed_batch i texts] is what [embedding_service.embed_batch(texts)]
    returns in the round of [i]: with the model loaded, as the script has
    it, the call returns a list, the model's vectors or the zero vectors of
    its [except] branch. *)
Definition script_embed_round (embed_batch : Z → list string → list (list float))
  (all_chunks : list APIDocument.t) (i : Z) : list APIDocument.t :=
  let batch := list_slice all_chunks i (i + script_batch_size) in
  let texts := map APIDocument.content batch in
  let embeddings := embed_batch i texts in
  take (Z.to_nat i) all_chunks
  ++ assign_embeddings batch embeddings
  ++ drop (Z.to_nat i + length batch) all_chunks.

Definition script_embed_chunks (embed_batch : Z → list string → list (list float))
  (all_chunks : list APIDocument.t) : list APIDocument.t :=
  foldl (script_embed_round embed_batch) all_chunks
        (range_step 0 (Z.of_nat (length all_chunks)) script_batch_size).

(** The batch a position belongs to, and the vector the service returned for
    it, if any *)
Definition batch_start (k : nat) : Z := Z.of_nat k / script_batch_size * script_batch_size.

Definition embedding_for (embed_batch : Z → list string → list (list float))
  (all_chunks : list APIDocument.t) (k : nat) : option (list float) :=
  let i := batch_start k in
  embed_batch i
    (map APIDocument.content (list_slice all_chunks i (i + script_batch_size)))
  !! (k - Z.to_nat i)%nat.

(** The chunk at position [k] once it has been given this vector; a chunk
    without a vector is left as it is. *)
Definition embedded (embed_batch : Z → list string → list (list float))
  (all_chunks : list APIDocument.t) (k : nat) (chunk : APIDocument.t)
  : APIDocument.t :=
  match embedding_for embed_batch all_chunks k with
  | Some e => set_embedding chunk e
  | None => chunk
  end.

(** ** The vector store: what [add_documents] hands to the collection

    [src/vector_store/chroma_manager.py], lines 52-90. The collection is the
    library's; the model stops at the arguments of [collection.add]. *)

Module ChromaManager.

(** The keyword arguments of the [collection.add] call; [embeddings] is
    [None] for the call that passes none. *)
Record add_call := AddCall {
  ids : list string;
  embeddings : option (list (list float));
  metadatas : list (gmap string pyval);
  documents : list string
}.

(** Python's truth value of a metadata value *)
Definition truthy (v : pyval) : bool :=
  match v with
  | PStr s => Str.nonempty s
  | PInt z => negb (z =? 0)
  | PList l => match l with [] => false | _ => true end
  end.

(** [doc.api_endpoint or ""] *)
Definition api_endpoint_or_empty (doc : APIDocument.t) : pyval :=
  match APIDocument.api_endpoint doc with
  | Some v => if truthy v then v else PStr ""
  | None => PStr ""
  end.

(** [if doc.embedding:] holds for a list with an element *)
Definition has_embedding (doc : APIDocument.t) : bool :=
  match APIDocument.embedding doc with
  | Some (_ :: _) => true
  | _ => false
  end.

(** The embedding the loop takes from a document, if any *)
Definition stored_embedding (doc : APIDocument.t) : option (list float) :=
  if has_embedding doc then APIDocument.embedding doc else None.

(** The [dict] of lines 65-71: four entries, then [**doc.metadata], whose
    entries replace those of the same key. *)
Definition document_metadata (doc : APIDocument.t) : gmap string pyval :=
  APIDocument.metadata doc
  ∪ <["created_at" := PStr (isoformat (APIDocument.created_at doc))]>
      (<["api_endpoint" := api_endpoint_or_empty doc]>
         (<["source_url" := PStr (APIDocument.source_url doc)]>
            (<["document_type" :=
                 PStr (DocumentType_value (APIDocument.document_type doc))]> ∅))).

(** The body of the loop over the documents, on the four lists *)
Definition prepare (acc : list string * list (list float)
                         * list (gmap string pyval) * list string)
  (doc : APIDocument.t)
  : list string * list (list float) * list (gmap string pyval) * list string :=
  let '(ids, embeddings, metadatas, documents_text) := acc in
  (ids ++ [APIDocument.id doc],
   match APIDocument.embedding doc with
   | Some ((_ :: _) as embedding) => embeddings ++ [embedding]
   | _ => embeddings
   end,
   metadatas ++ [document_metadata doc],
   documents_text ++ [APIDocument.content doc]).

Definition add_documents (documents : list APIDocument.t) : add_call :=
  let '(ids, embeddings, metadatas, documents_text) :=
    foldl prepare ([], [], [], []) documents in
  match embeddings with
  | [] => AddCall ids None metadatas documents_text
  | _ :: _ => AddCall ids (Some embeddings) metadatas documents_text
  end.

End ChromaManager.

(** A service that answers every text with a vector of two zeros, and one
    that answers with one vector less than it is asked for *)
Definition zero_service (i : Z) (texts : list string) : list (list float) :=
  map (λ _, [0%float; 0%float]) texts.

Definition short_service (i : Z) (texts : list string) : list (list float) :=
  map (λ _, [0%float; 0%float]) (tail texts).

(** A chunk with the given id and content, and no embedding *)
Definition sample_chunk (id content : string) : APIDocument.t :=
  APIDocument.Build id content OVERVIEW "http://test.com" None ∅ None
    (Datetime 2024 1 15 12 0 0 0) (Datetime 2024 1 15 12 0 0 0).

Example generate_id_empty : generate_id "" = "d41d8cd98f00b204".
Proof. vm_compute. reflexivity. Qed.

Example md5_abc : MD5.hexdigest (Str.encode "abc") = "900150983cd24fb0d6963f7d28e17f72".
Proof. vm_compute. reflexivity. Qed.

Example chunk_text_snaps :
  chunk_text 8 "a.bcdefgh.k" 4 3
  = Returned ["a.bc"; "bcd"; "bcde"; "bcdefgh."; "gh.k"; "h.k"; "k"; "k"].
Proof. vm_compute. reflexivity. Qed.

(** * Properties

    ** Facts about the built-in operations *)

Module StrFacts.
Import Str.

Lemma length_substring_le (n m : nat) (s : string) :
  (String.length (String.substring n m s) ≤ m)%nat.
Proof.
  revert n m. induction s as [|c s IH]; intros [|n] [|m]; simpl; try lia.
  - specialize (IH 0%nat m). lia.
  - apply (IH n 0%nat).
  - apply (IH n (S m)).
Qed.

Lemma length_slice_le (text : string) (a b : Z) :
  0 ≤ a → a ≤ b → len (slice text a b) ≤ b - a.
Proof.
  intros Ha Hab. unfold slice, len, clamp.
  pose proof (length_substring_le
    (Z.to_nat (clamp (len text) a))
    (Z.to_nat (clamp (len text) b - clamp (len text) a)) text) as H.
  unfold clamp, len in H.
  destruct (a <? 0) eqn:Ea; [apply Z.ltb_lt in Ea; lia|].
  destruct (b <? 0) eqn:Eb; [apply Z.ltb_lt in Eb; lia|].
  lia.
Qed.

Lemma length_lstrip_le (s : string) :
  (String.length (lstrip s) ≤ String.length s)%nat.
Proof.
  induction s as [|c s IH]; simpl; [lia|].
  destruct (isspace c); simpl; lia.
Qed.

Lemma length_rstrip_le (s : string) :
  (String.length (rstrip s) ≤ String.length s)%nat.
Proof.
  induction s as [|c s IH]; simpl; [lia|].
  destruct (rstrip s); [destruct (isspace c)|]; simpl in *; lia.
Qed.

Lemma length_strip_le (s : string) :
  (String.length (strip s) ≤ String.length s)%nat.
Proof.
  unfold strip. pose proof (length_lstrip_le (rstrip s)).
  pose proof (length_rstrip_le s). lia.
Qed.

Lemma lstrip_idemp (s : string) : lstrip (lstrip s) = lstrip s.
Proof.
  induction s as [|c s IH]; simpl; [done|].
  destruct (isspace c) eqn:E; [done|]. simpl. by rewrite E.
Qed.

Lemma rstrip_idemp (s : string) : rstrip (rstrip s) = rstrip s.
Proof.
  induction s as [|c s IH]; simpl; [done|].
  destruct (rstrip s) as [|d r] eqn:E.
  - destruct (isspace c) eqn:Ec; simpl; [done|]. by rewrite Ec.
  - simpl in *. by rewrite IH.
Qed.

Lemma rstrip_lstrip (s : string) : rstrip (lstrip s) = lstrip (rstrip s).
Proof.
  induction s as [|c s IH]; simpl; [done|].
  destruct (isspace c) eqn:Ec.
  - rewrite IH. destruct (rstrip s) as [|d r]; simpl; by rewrite ?Ec.
  - simpl. destruct (rstrip s) as [|d r]; simpl; by rewrite ?Ec.
Qed.

(** Trimming a trimmed string changes nothing. *)
Lemma strip_idemp (s : string) : strip (strip s) = strip s.
Proof.
  unfold strip.
  by rewrite (rstrip_lstrip (rstrip s)), rstrip_idemp, lstrip_idemp.
Qed.

Lemma nonempty_true (s : string) : nonempty s = true ↔ s ≠ EmptyString.
Proof. destruct s; simpl; split; congruence. Qed.

Lemma index_in_range (text : string) (i : Z) :
  0 ≤ i < len text → ∃ c, index text i = Returned c.
Proof.
  intros Hi. unfold index.
  destruct (i <? 0) eqn:E; [apply Z.ltb_lt in E; lia|].
  destruct (0 <=? i) eqn:E0; [|apply Z.leb_gt in E0; lia].
  destruct (i <? len text) eqn:E1; [|apply Z.ltb_ge in E1; lia].
  simpl. destruct (String.get (Z.to_nat i) text) as [c|] eqn:G; [eauto|].
  exfalso. unfold len in Hi.
  assert (Hlt : (Z.to_nat i < String.length text)%nat) by lia.
  revert G Hlt. generalize (Z.to_nat i). clear.
  induction text as [|c s IH]; intros [|n]; simpl; try lia; try done.
  intros G Hn. apply (IH n G). lia.
Qed.

End StrFacts.

Lemma elem_of_range (a b i : Z) : i ∈ range a b ↔ a ≤ i < b.
Proof.
  unfold range. rewrite list_elem_of_fmap. split.
  - intros (k & -> & Hk). apply elem_of_seq in Hk. lia.
  - intros Hi. exists (Z.to_nat (i - a)). split; [lia|].
    apply elem_of_seq. lia.
Qed.

Lemma elem_of_range_down (a b i : Z) : i ∈ range_down a b ↔ b < i ≤ a.
Proof.
  unfold range_down. rewrite list_elem_of_fmap. split.
  - intros (k & -> & Hk). apply elem_of_seq in Hk. lia.
  - intros Hi. exists (Z.to_nat (a - i)). split; [lia|].
    apply elem_of_seq. lia.
Qed.

(** ** The text segmenter, [chunk_text] *)

Section Segmenter.
Import Str StrFacts.

Variables (text : string) (chunk_size overlap : Z).
Hypothesis chunk_size_pos : 0 < chunk_size.
Hypothesis overlap_range : 0 ≤ overlap < chunk_size.

Lemma snap_start_returns (idxs : list Z) (start : Z) :
  (∀ i, i ∈ idxs → 0 ≤ i) →
  ∃ start', snap_start text idxs start = Returned start'
            ∧ (start' = start ∨ ∃ i, i ∈ idxs ∧ start' = i + 1).
Proof.
  induction idxs as [|i idxs IH]; intros Hidx; simpl; [eauto|].
  destruct IH as (s' & Hs' & Hcase).
  { intros j Hj. apply Hidx. by right. }
  assert (Hlater : s' = start ∨ ∃ j, j ∈ i :: idxs ∧ s' = j + 1).
  { destruct Hcase as [->|(j & Hj & ->)]; [by left|right].
    exists j. split; [by right|done]. }
  destruct (i <? len text) eqn:Ei; [|eauto].
  apply Z.ltb_lt in Ei.
  destruct (index_in_range text i) as [c ->]; [split; [apply Hidx; by left|done]|].
  simpl. destruct (char_in c boundary_chars); [|eauto].
  eexists; split; [done|]. right. exists i. split; [by left|done].
Qed.

Lemma snap_end_returns (idxs : list Z) (end_ : Z) :
  (∀ i, i ∈ idxs → 0 ≤ i < len text) →
  ∃ end', snap_end text idxs end_ = Returned end'
          ∧ (end' = end_ ∨ ∃ i, i ∈ idxs ∧ end' = i + 1).
Proof.
  induction idxs as [|i idxs IH]; intros Hidx; simpl; [eauto|].
  destruct IH as (e' & He' & Hcase).
  { intros j Hj. apply Hidx. by right. }
  destruct (index_in_range text i) as [c ->]; [apply Hidx; by left|].
  simpl. destruct (char_in c boundary_chars).
  - eexists; split; [done|]. right. exists i. split; [by left|done].
  - exists e'. split; [done|].
    destruct Hcase as [->|(j & Hj & ->)]; [by left|right].
    exists j. split; [by right|done].
Qed.

(** One iteration returns, moves [start] forward by at least
    [chunk_size - overlap], and appends only a trimmed, non-empty chunk of
    bounded length. *)
Lemma chunk_step_returns (start : Z) :
  0 ≤ start →
  ∃ chunk next,
    chunk_step text chunk_size overlap start = Returned (chunk, next)
    ∧ start + chunk_size - overlap ≤ next
    ∧ ∀ c, chunk = Some c →
           len c ≤ max_chunk_len chunk_size overlap ∧ strip c = c ∧ c ≠ EmptyString.
Proof.
  intros Hstart. unfold chunk_step.
  assert (Hs : ∃ start',
    (if 0 <? start
     then snap_start text (range_down start (Z.max (start - overlap) 0)) start
     else Returned start) = Returned start'
    ∧ 0 ≤ start' ≤ start + 1
    ∧ start - Z.max 0 (overlap - 2) ≤ start').
  { destruct (0 <? start) eqn:E0.
    - destruct (snap_start_returns
        (range_down start (Z.max (start - overlap) 0)) start)
        as (s' & -> & Hcase).
      { intros i Hi. apply elem_of_range_down in Hi. lia. }
      exists s'. split; [done|].
      destruct Hcase as [->|(i & Hi & ->)]; [lia|].
      apply elem_of_range_down in Hi. lia.
    - exists start. split; [done|lia]. }
  destruct Hs as (start' & -> & Hs1 & Hs2). simpl.
  assert (He : ∃ end',
    (if start + chunk_size <? len text
     then snap_end text
            (range (start + chunk_size)
                   (Z.min (start + chunk_size + overlap) (len text)))
            (start + chunk_size)
     else Returned (start + chunk_size)) = Returned end'
    ∧ start + chunk_size ≤ end' ≤ start + chunk_size + overlap).
  { destruct (start + chunk_size <? len text) eqn:E1.
    - destruct (snap_end_returns
        (range (start + chunk_size)
               (Z.min (start + chunk_size + overlap) (len text)))
        (start + chunk_size)) as (e' & -> & Hcase).
      { intros i Hi. apply elem_of_range in Hi. lia. }
      exists e'. split; [done|].
      destruct Hcase as [->|(i & Hi & ->)]; [lia|].
      apply elem_of_range in Hi. lia.
    - exists (start + chunk_size). split; [done|lia]. }
  destruct He as (end' & -> & He1). simpl.
  eexists _, _. split; [done|]. split; [lia|].
  intros c Hc.
  destruct (nonempty (strip (slice text start' end'))) eqn:Hne; [|done].
  injection Hc as <-. split; [|split].
  - pose proof (length_strip_le (slice text start' end')) as Hl.
    pose proof (length_slice_le text start' end') as Hsl.
    unfold max_chunk_len, len in *. lia.
  - apply strip_idemp.
  - by apply nonempty_true.
Qed.

(** More fuel does not change what the loop returns. *)
Lemma chunk_loop_fuel_mono (fuel fuel' : nat) (start : Z) (chunks out : list string) :
  (fuel ≤ fuel')%nat →
  chunk_loop fuel text chunk_size overlap start chunks = Returned out →
  chunk_loop fuel' text chunk_size overlap start chunks = Returned out.
Proof.
  revert fuel' start chunks.
  induction fuel as [|fuel IH]; intros fuel' start chunks Hle.
  - destruct fuel'; simpl; destruct (start <? len text); done.
  - destruct fuel' as [|fuel']; [lia|]. simpl.
    destruct (start <? len text); [|done].
    destruct (chunk_step text chunk_size overlap start) as [step| |]; simpl; try done.
    apply IH. lia.
Qed.

(** The loop returns once the fuel covers the distance from [start] to the
    end of the text, and keeps any property of the chunks that each
    iteration establishes. *)
Lemma chunk_loop_returns (P : string → Prop) (fuel : nat) (start : Z) (chunks : list string) :
  (∀ c, len c ≤ max_chunk_len chunk_size overlap → strip c = c → c ≠ EmptyString → P c) →
  0 ≤ start →
  (Z.to_nat (len text - start) ≤ fuel)%nat →
  Forall P chunks →
  ∃ out, chunk_loop fuel text chunk_size overlap start chunks = Returned out
         ∧ Forall P out.
Proof.
  intros HP. revert start chunks.
  induction fuel as [|fuel IH]; intros start chunks Hstart Hfuel Hchunks.
  - simpl. destruct (start <? len text) eqn:E; [apply Z.ltb_lt in E; lia|eauto].
  - simpl. destruct (start <? len text) eqn:E; [|eauto].
    apply Z.ltb_lt in E.
    destruct (chunk_step_returns start Hstart) as (chunk & next & -> & Hnext & Hc).
    simpl. apply IH; [lia|lia|].
    destruct chunk as [c|]; [|done].
    apply Forall_app. split; [done|].
    apply Forall_singleton. destruct (Hc c eq_refl) as (? & ? & ?). by apply HP.
Qed.

Lemma chunk_text_returns (P : string → Prop) (fuel : nat) :
  (∀ c, len c ≤ max_chunk_len chunk_size overlap → strip c = c → c ≠ EmptyString → P c) →
  (String.length text ≤ fuel)%nat →
  ∃ out, chunk_text fuel text chunk_size overlap = Returned out ∧ Forall P out.
Proof.
  intros HP Hfuel. unfold chunk_text.
  destruct (nonempty text); [|eauto].
  apply chunk_loop_returns; [done|lia|unfold len; lia|done].
Qed.

End Segmenter.

(** ** The classifier *)

Section Classifier.
Import Str.

Lemma prefix_lower (needle hay : string) :
  String.prefix needle hay = true →
  String.prefix (lower needle) (lower hay) = true.
Proof.
  revert hay. induction needle as [|a needle IH]; intros [|b hay]; simpl; try done.
  destruct (ascii_dec a b) as [->|]; [|done].
  intros Hp. destruct (ascii_dec (lower_char b) (lower_char b)); [auto|done].
Qed.

(** Lower-casing both sides keeps an occurrence. *)
Lemma contains_lower (needle hay : string) :
  contains needle hay = true → contains (lower needle) (lower hay) = true.
Proof.
  induction hay as [|b hay IH]; simpl.
  - rewrite !orb_false_r. apply (prefix_lower needle EmptyString).
  - intros [Hp|Hc]%orb_true_iff; apply orb_true_iff.
    + left. apply (prefix_lower needle (String b hay) Hp).
    + right. auto.
Qed.

Lemma classify_example (raw_doc : RawDocument.t) :
  contains "example" (lower (RawDocument.content raw_doc)) = true →
  DocumentProcessor._classify_document raw_doc = EXAMPLE.
Proof. intros Hc. unfold DocumentProcessor._classify_document. by rewrite Hc. Qed.

(** C4: the classifier is the first-match-wins evaluation of the seven
    ordered rules over the lower-cased url and content, so it yields exactly
    one type for every document; a content that contains both "example" and
    "tutorial", in any letter case, is classified [EXAMPLE]; a document on
    which none of the first six rules applies is classified [OVERVIEW]. *)
Theorem classify_document_first_match :
  (∀ raw_doc,
     classify_by_rules (RawDocument.url raw_doc) (RawDocument.content raw_doc)
     = Some (DocumentProcessor._classify_document raw_doc))
  ∧ (∀ raw_doc example tutorial,
       lower example = "example" → lower tutorial = "tutorial" →
       contains example (RawDocument.content raw_doc) = true →
       contains tutorial (RawDocument.content raw_doc) = true →
       DocumentProcessor._classify_document raw_doc = EXAMPLE)
  ∧ (∀ raw_doc,
       Forall (λ rule : (string → string → bool) * DocumentType,
                 rule.1 (lower (RawDocument.url raw_doc))
                        (lower (RawDocument.content raw_doc)) = false)
              (take 6 classification_rules) →
       DocumentProcessor._classify_document raw_doc = OVERVIEW).
Proof.
  split; [|split].
  - intros raw_doc.
    unfold classify_by_rules, DocumentProcessor._classify_document,
      classification_rules, first_match.
    repeat match goal with |- context [if ?b then _ else _] =>
      destruct b; [reflexivity|] end.
    reflexivity.
  - intros raw_doc example tutorial He _ Hc _.
    apply classify_example. rewrite <- He. by apply contains_lower.
  - intros raw_doc Hnone.
    unfold classification_rules in Hnone. simpl in Hnone.
    repeat match goal with H : Forall _ (_ :: _) |- _ =>
      apply Forall_cons in H; destruct H as [? H] end.
    simpl in *. unfold DocumentProcessor._classify_document.
    repeat match goal with H : _ = false |- _ => rewrite H; clear H end.
    reflexivity.
Qed.

(** The repository's own classification test, a mixed-case content with both
    words, and a content that matches no rule. *)
Lemma classify_document_first_match_witness :
  DocumentProcessor._classify_document
    (sample_doc "http://x.com" "A TUTORIAL with an Example") = EXAMPLE
  ∧ DocumentProcessor._classify_document
      (sample_doc "http://x.com" "nothing here") = OVERVIEW.
Proof.
  split.
  - apply (proj1 (proj2 classify_document_first_match)
             (sample_doc "http://x.com" "A TUTORIAL with an Example")
             "Example" "TUTORIAL"); reflexivity.
  - apply (proj2 (proj2 classify_document_first_match)
             (sample_doc "http://x.com" "nothing here")).
    simpl. repeat constructor.
Defined.

End Classifier.

(** ** The metadata extractor *)

Section MetadataExtractor.
Context `{Runtime}.

(** What decides the [api_endpoint] entry: the url names the documentation
    domain and one of its parts between slashes is exactly ["#"]. *)
Lemma extract_metadata_api_endpoint (raw_doc : RawDocument.t) (doc_type : DocumentType) :
  DocumentProcessor._extract_metadata raw_doc doc_type !! "api_endpoint"
  = if Str.contains "api.nasa.gov" (RawDocument.url raw_doc)
    then PStr <$> DocumentProcessor.endpoint_after_hash
                    (Str.split "/" (RawDocument.url raw_doc))
    else None.
Proof.
  unfold DocumentProcessor._extract_metadata.
  destruct (decide (doc_type = PARAMETER));
    destruct (Str.contains "api.nasa.gov" (RawDocument.url raw_doc));
    try destruct (DocumentProcessor.endpoint_after_hash _);
    by simplify_map_eq.
Qed.

(** C1: for the url of the repository's own test, "https://api.nasa.gov/#apod",
    the extracted metadata has no [api_endpoint] entry, whatever the content
    and the document type: splitting at "/" yields the part "#apod", which
    is not the part "#" the loop looks for. *)
Theorem extract_metadata_fragment_has_no_endpoint
  (content content_type : string) (headers : gmap string string)
  (timestamp : datetime) (doc_type : DocumentType) :
  DocumentProcessor._extract_metadata
    (RawDocument.Build "https://api.nasa.gov/#apod" content content_type
       headers timestamp) doc_type !! "api_endpoint" = None.
Proof. rewrite extract_metadata_api_endpoint. reflexivity. Qed.

(** The url shape the loop does recognise: a part "#" followed by a part. *)
Lemma extract_metadata_hash_part
  (content content_type : string) (headers : gmap string string)
  (timestamp : datetime) (doc_type : DocumentType) :
  DocumentProcessor._extract_metadata
    (RawDocument.Build "https://api.nasa.gov/#/apod" content content_type
       headers timestamp) doc_type !! "api_endpoint" = Some (PStr "apod").
Proof. rewrite extract_metadata_api_endpoint. reflexivity. Qed.

End MetadataExtractor.

(** ** The segmenter: bounds and termination *)

Section SegmenterProperties.
Import Str StrFacts.

Lemma chunk_text_fuel_mono (fuel fuel' : nat) (text : string) (chunk_size overlap : Z)
  (out : list string) :
  (fuel ≤ fuel')%nat →
  chunk_text fuel text chunk_size overlap = Returned out →
  chunk_text fuel' text chunk_size overlap = Returned out.
Proof.
  unfold chunk_text. intros Hle. destruct (nonempty text); [|done].
  by apply chunk_loop_fuel_mono.
Qed.

(** C2, as the code has it: with [chunk_size > 0] and [0 ≤ overlap < chunk_size]
    the segmenter returns, and every chunk it returns has at most
    [chunk_size + overlap + max 0 (overlap - 2)] characters and is non-empty
    after trimming. *)
Theorem chunk_text_chunk_bounds (fuel : nat) (text : string) (chunk_size overlap : Z) :
  0 < chunk_size → 0 ≤ overlap < chunk_size →
  (String.length text ≤ fuel)%nat →
  ∃ chunks, chunk_text fuel text chunk_size overlap = Returned chunks
            ∧ Forall (λ c, len c ≤ max_chunk_len chunk_size overlap
                           ∧ strip c ≠ EmptyString) chunks.
Proof.
  intros Hsize Hoverlap Hfuel.
  apply chunk_text_returns; [done|done| |done].
  intros c Hlen Hstrip Hne. split; [done|]. by rewrite Hstrip.
Qed.

Lemma chunk_text_chunk_bounds_witness :
  ∃ chunks, chunk_text 11 "a.bcdefgh.k" 4 3 = Returned chunks
            ∧ Forall (λ c, len c ≤ max_chunk_len 4 3 ∧ strip c ≠ EmptyString) chunks.
Proof. apply chunk_text_chunk_bounds; [lia|lia|simpl; lia]. Defined.

(** With windows of 4 and an overlap of 3, the fourth window of
    "a.bcdefgh.k" starts at 3, is snapped back to 2 (after the "." at 1) and
    forward to 10 (after the "." at 9): a chunk of 8 characters, one more
    than [chunk_size + overlap]. *)
Lemma chunk_text_exceeds_size_plus_overlap :
  0 < 4 ∧ 0 ≤ 3 < 4
  ∧ chunk_text 8 "a.bcdefgh.k" 4 3
    = Returned ["a.bc"; "bcd"; "bcde"; "bcdefgh."; "gh.k"; "h.k"; "k"; "k"]
  ∧ ¬ Forall (λ c, len c ≤ 4 + 3 ∧ strip c ≠ EmptyString)
        ["a.bc"; "bcd"; "bcde"; "bcdefgh."; "gh.k"; "h.k"; "k"; "k"].
Proof.
  split; [lia|]. split; [lia|]. split; [vm_compute; reflexivity|].
  intros Hall. apply Forall_lookup_1 with (i := 3%nat) (x := "bcdefgh.") in Hall;
    [|reflexivity].
  destruct Hall as [Hlen _]. vm_compute in Hlen. by apply Hlen.
Qed.

(** C8: with [chunk_size > 0] and [0 ≤ overlap < chunk_size] the segmenter
    returns the same chunks for every amount of fuel from the length of the
    text on; each iteration of its loop returns and leaves [start] strictly
    greater than it found it; and the empty text yields no chunk. *)
Theorem chunk_text_terminates (text : string) (chunk_size overlap : Z) :
  0 < chunk_size → 0 ≤ overlap < chunk_size →
  (∃ chunks, ∀ fuel, (String.length text ≤ fuel)%nat →
             chunk_text fuel text chunk_size overlap = Returned chunks)
  ∧ (∀ start, 0 ≤ start →
       ∃ chunk next,
         chunk_step text chunk_size overlap start = Returned (chunk, next)
         ∧ start < next)
  ∧ (∀ fuel, chunk_text fuel EmptyString chunk_size overlap = Returned []).
Proof.
  intros Hsize Hoverlap. split; [|split].
  - destruct (chunk_text_returns text chunk_size overlap Hsize Hoverlap
                (λ _, True) (String.length text)) as (chunks & Hret & _);
      [done|done|].
    exists chunks. intros fuel Hfuel.
    by apply (chunk_text_fuel_mono (String.length text)).
  - intros start Hstart.
    destruct (chunk_step_returns text chunk_size overlap Hsize Hoverlap start Hstart)
      as (chunk & next & Hstep & Hnext & _).
    exists chunk, next. split; [done|lia].
  - done.
Qed.

Lemma chunk_text_terminates_witness :
  (∃ chunks, ∀ fuel, (String.length "a.bcdefgh.k" ≤ fuel)%nat →
             chunk_text fuel "a.bcdefgh.k" 4 3 = Returned chunks)
  ∧ (∀ start, 0 ≤ start →
       ∃ chunk next,
         chunk_step "a.bcdefgh.k" 4 3 start = Returned (chunk, next) ∧ start < next)
  ∧ (∀ fuel, chunk_text fuel EmptyString 4 3 = Returned []).
Proof. apply chunk_text_terminates; lia. Defined.

(** Outside the constraints the loop need not end: with an overlap equal to
    the window size, [start] stays where it is. *)
Example chunk_text_equal_overlap_runs_out :
  chunk_text 1000 "abc" 1 1 = OutOfFuel.
Proof. vm_compute. reflexivity. Qed.

(** The empty text yields no chunk, whatever the sizes. *)
Lemma chunk_text_empty (fuel : nat) (chunk_size overlap : Z) :
  chunk_text fuel EmptyString chunk_size overlap = Returned [].
Proof. reflexivity. Qed.

End SegmenterProperties.

(** ** Identifiers *)

Section Identifiers.
Import Str.

Lemma chars_substring_0 (m : nat) (s : string) :
  String.list_ascii_of_string (String.substring 0 m s)
  = take m (String.list_ascii_of_string s).
Proof.
  revert m. induction s as [|c s IH]; intros [|m]; simpl; try done.
  by rewrite IH.
Qed.

Lemma length_chars (s : string) :
  length (String.list_ascii_of_string s) = String.length s.
Proof. induction s as [|c s IH]; simpl; [done|]. by rewrite IH. Qed.

(** [s[:b]] is a prefix of [s]. *)
Lemma chars_slice_to (s : string) (b : Z) :
  0 ≤ b →
  String.list_ascii_of_string (slice_to s b)
  = take (Z.to_nat b) (String.list_ascii_of_string s).
Proof.
  intros Hb. unfold slice_to, slice, clamp.
  destruct (0 <? 0) eqn:E0; [done|].
  destruct (b <? 0) eqn:Eb; [apply Z.ltb_lt in Eb; lia|].
  replace (Z.to_nat (Z.min 0 (len s))) with 0%nat by (unfold len; lia).
  rewrite chars_substring_0.
  destruct (Z.le_ge_cases b (len s)) as [Hle|Hge].
  - by replace (Z.min b (len s) - Z.min 0 (len s)) with b by (unfold len in *; lia).
  - replace (Z.min b (len s) - Z.min 0 (len s)) with (len s) by (unfold len in *; lia).
    rewrite !take_ge; [done| |]; rewrite length_chars; unfold len in *; lia.
Qed.

Lemma length_hex (bs : list Z) :
  String.length (MD5.hex bs) = (2 * length bs)%nat.
Proof. induction bs as [|b bs IH]; simpl; [done|]. rewrite IH. lia. Qed.

Lemma hex_digit_is_hex (n : Z) : is_hex_char (MD5.hex_digit n) = true.
Proof.
  unfold MD5.hex_digit. generalize (Z.to_nat n). intros k.
  do 16 (destruct k as [|k]; [reflexivity|]). by destruct k.
Qed.

Lemma hex_is_hex (bs : list Z) :
  Forall (λ c, is_hex_char c = true) (String.list_ascii_of_string (MD5.hex bs)).
Proof.
  induction bs as [|b bs IH]; simpl; [constructor|].
  repeat constructor; auto using hex_digit_is_hex.
Qed.

Lemma length_digest (msg : list Z) : length (MD5.digest msg) = 16%nat.
Proof.
  unfold MD5.digest. destruct (MD5.blocks _ _ _) as [a b c d].
  unfold MD5.le_bytes. by rewrite !length_app, !length_map, !length_seq.
Qed.

(** The first 16 characters of a hexadecimal digest are 16 hexadecimal
    characters. *)
Lemma hexdigest_prefix_hex16 (msg : list Z) :
  is_hex16 (slice_to (MD5.hexdigest msg) 16).
Proof.
  unfold is_hex16. rewrite <- length_chars, chars_slice_to by lia.
  unfold MD5.hexdigest. split.
  - rewrite length_take, length_chars, length_hex, length_digest. lia.
  - apply Forall_take, hex_is_hex.
Qed.

Lemma generate_id_hex16 (text : string) : is_hex16 (generate_id text).
Proof. apply hexdigest_prefix_hex16. Qed.

End Identifiers.

(** ** The chunk assembler *)

Section Assembler.
Context `{Runtime}.
Import Str.

Lemma new_returns (id content : string) (document_type : DocumentType)
  (source_url : string) (api_endpoint : option pyval)
  (metadata : gmap string pyval) (w : World) :
  APIDocument.new id content document_type source_url api_endpoint metadata w
  = (Returned (APIDocument.Build id content document_type source_url
                 api_endpoint metadata None
                 (clock_utcnow (clock_reads w))
                 (clock_utcnow (S (clock_reads w)))),
     tick (tick w)).
Proof. reflexivity. Qed.

Lemma kept_item_test (i : nat) (segment : string) :
  (len (strip segment) <? 50) = negb (kept_item (i, segment)).
Proof. unfold kept_item, kept. simpl. apply Z.ltb_antisym. Qed.

(** The loop of [_create_chunks] returns; it appends one chunk for each
    kept item, in order, and leaves the error log alone. *)
Lemma create_chunks_loop_returns (url : string) (doc_type : DocumentType)
  (metadata : gmap string pyval) (total : nat)
  (items : list (nat * string)) (chunks : list APIDocument.t) (w : World) :
  ∃ docs w',
    DocumentProcessor.create_chunks_loop url doc_type metadata total items chunks w
    = (Returned (chunks ++ docs), w')
    ∧ Forall2 (chunk_of url doc_type metadata total) (List.filter kept_item items) docs
    ∧ error_log w' = error_log w.
Proof.
  revert chunks w. induction items as [|[i segment] items IH]; intros chunks w.
  - exists [], w. simpl. rewrite app_nil_r. by repeat split.
  - simpl. rewrite (kept_item_test i).
    destruct (kept_item (i, segment)) eqn:Hkept; simpl.
    + unfold mbind, Py_bind. rewrite new_returns.
      destruct (IH (chunks ++
        [APIDocument.Build (generate_id (url +:+ "_" +:+ of_nat i)) segment doc_type url
           (metadata !! "api_endpoint")
           (<["chunk_size" := PInt (len segment)]>
            (<["total_chunks" := PInt (Z.of_nat total)]>
            (<["chunk_index" := PInt (Z.of_nat i)]> metadata))) None
           (clock_utcnow (clock_reads w)) (clock_utcnow (S (clock_reads w)))])
        (tick (tick w))) as (docs & w' & -> & Hdocs & Hlog).
      eexists (_ :: docs), w'. rewrite <- app_assoc. split; [done|]. split; [|done].
      constructor; [|done]. by repeat split.
    + apply IH.
Qed.

(** [_create_chunks] follows the segmenter: it returns when the segmenter
    does, with the chunks of the kept segments. *)
Lemma create_chunks_returns (fuel : nat) (self : DocumentProcessor.t)
  (content url : string) (doc_type : DocumentType)
  (metadata : gmap string pyval) (w : World) (segments : list string) :
  chunk_text fuel content (DocumentProcessor.chunk_size self)
    (DocumentProcessor.chunk_overlap self) = Returned segments →
  ∃ docs w',
    DocumentProcessor._create_chunks fuel self content url doc_type metadata w
    = (Returned docs, w')
    ∧ Forall2 (chunk_of url doc_type metadata (length segments))
        (List.filter kept_item (enumerate segments)) docs
    ∧ error_log w' = error_log w.
Proof.
  intros Hseg. unfold DocumentProcessor._create_chunks, mbind, Py_bind, lift.
  rewrite Hseg.
  destruct (create_chunks_loop_returns url doc_type metadata (length segments)
              (enumerate segments) [] w) as (docs & w' & Hloop & Hdocs & Hlog).
  exists docs, w'. by rewrite Hloop.
Qed.

Lemma create_chunks_raises (fuel : nat) (self : DocumentProcessor.t)
  (content url : string) (doc_type : DocumentType)
  (metadata : gmap string pyval) (w : World) (e : string) :
  chunk_text fuel content (DocumentProcessor.chunk_size self)
    (DocumentProcessor.chunk_overlap self) = Raised e →
  DocumentProcessor._create_chunks fuel self content url doc_type metadata w
  = (Raised e, w).
Proof.
  intros Hseg. unfold DocumentProcessor._create_chunks, mbind, Py_bind, lift.
  by rewrite Hseg.
Qed.

(** The kept items of an enumeration, read back: their segments are the kept
    segments, and their positions increase. *)
Lemma kept_items_segments (start : nat) (segments : list string) :
  map snd (List.filter kept_item (enumerate_from start segments))
  = List.filter kept segments.
Proof.
  revert start. induction segments as [|s segments IH]; intros start; simpl; [done|].
  unfold kept_item at 1. simpl. destruct (kept s); simpl; by rewrite IH.
Qed.

Lemma enumerate_from_lookup (start : nat) (segments : list string) (item : nat * string) :
  item ∈ enumerate_from start segments →
  (start ≤ item.1)%nat ∧ segments !! (item.1 - start)%nat = Some item.2.
Proof.
  revert start. induction segments as [|s segments IH]; intros start; simpl.
  - by intros ?%elem_of_nil.
  - intros [->|Hin]%elem_of_cons; simpl.
    + by rewrite Nat.sub_diag.
    + destruct (IH _ Hin) as [Hle Hlook]. split; [lia|].
      by replace (item.1 - start)%nat with (S (item.1 - S start)) by lia.
Qed.

Lemma kept_items_lookup (segments : list string) (item : nat * string) :
  item ∈ List.filter kept_item (enumerate segments) →
  segments !! item.1 = Some item.2 ∧ kept item.2 = true.
Proof.
  intros [Hin Hkept]%list_elem_of_In%filter_In. split; [|done].
  apply list_elem_of_In, enumerate_from_lookup in Hin as [_ Hlook].
  by rewrite Nat.sub_0_r in Hlook.
Qed.

Lemma kept_items_increasing (start : nat) (segments : list string) :
  StronglySorted lt (map fst (List.filter kept_item (enumerate_from start segments))).
Proof.
  revert start. induction segments as [|s segments IH]; intros start; simpl.
  - constructor.
  - destruct (kept_item (start, s)); [|apply IH].
    simpl. constructor; [apply IH|].
    apply List.Forall_forall. intros i Hi. apply in_map_iff in Hi as (item & <- & Hin).
    apply filter_In in Hin as [Hin _].
    apply list_elem_of_In, enumerate_from_lookup in Hin as [Hle _]. lia.
Qed.

End Assembler.

(** ** Processing one document *)

Section SingleDocument.
Context `{Runtime}.
Import Str.

Lemma well_configured_segments (fuel : nat) (self : DocumentProcessor.t) (content : string) :
  well_configured self → (String.length content ≤ fuel)%nat →
  ∃ segments,
    chunk_text fuel content (DocumentProcessor.chunk_size self)
      (DocumentProcessor.chunk_overlap self) = Returned segments.
Proof.
  intros [Hsize Hoverlap] Hfuel.
  destruct (chunk_text_returns content _ _ Hsize Hoverlap (λ _, True) fuel)
    as (segments & Hseg & _); [done|done|].
  by exists segments.
Qed.

(** When the segmenter returns, so does [_process_single_document]: with no
    error, the chunks of the kept segments and their count. *)
Lemma process_single_returns (fuel : nat) (self : DocumentProcessor.t)
  (raw_doc : RawDocument.t) (w : World) (segments : list string) :
  chunk_text fuel (RawDocument.content raw_doc) (DocumentProcessor.chunk_size self)
    (DocumentProcessor.chunk_overlap self) = Returned segments →
  ∃ pd w',
    DocumentProcessor._process_single_document fuel self raw_doc w = (Returned pd, w')
    ∧ ProcessedDocument.original_url pd = RawDocument.url raw_doc
    ∧ ProcessedDocument.errors pd = []
    ∧ ProcessedDocument.total_chunks pd
      = Z.of_nat (length (ProcessedDocument.chunks pd))
    ∧ Forall2 (chunk_of (RawDocument.url raw_doc)
                 (DocumentProcessor._classify_document raw_doc)
                 (DocumentProcessor._extract_metadata raw_doc
                    (DocumentProcessor._classify_document raw_doc))
                 (length segments))
        (List.filter kept_item (enumerate segments)) (ProcessedDocument.chunks pd).
Proof.
  intros Hseg.
  destruct (create_chunks_returns fuel self (RawDocument.content raw_doc)
              (RawDocument.url raw_doc)
              (DocumentProcessor._classify_document raw_doc)
              (DocumentProcessor._extract_metadata raw_doc
                 (DocumentProcessor._classify_document raw_doc))
              (tick w) segments Hseg) as (docs & w' & Hdocs & Hall & _).
  unfold DocumentProcessor._process_single_document, mbind, Py_bind, time_time.
  rewrite Hdocs. eexists _, _. split; [reflexivity|]. by repeat split.
Qed.

(** When the segmenter raises, [_process_single_document] raises the same
    exception. *)
Lemma process_single_raises (fuel : nat) (self : DocumentProcessor.t)
  (raw_doc : RawDocument.t) (w : World) (e : string) :
  chunk_text fuel (RawDocument.content raw_doc) (DocumentProcessor.chunk_size self)
    (DocumentProcessor.chunk_overlap self) = Raised e →
  DocumentProcessor._process_single_document fuel self raw_doc w = (Raised e, tick w).
Proof.
  intros Hseg.
  unfold DocumentProcessor._process_single_document, mbind, Py_bind, time_time.
  by rewrite (create_chunks_raises _ _ _ _ _ _ _ e Hseg).
Qed.

Lemma chunk_of_ids (url : string) (doc_type : DocumentType)
  (metadata : gmap string pyval) (total : nat)
  (items : list (nat * string)) (docs : list APIDocument.t) :
  Forall2 (chunk_of url doc_type metadata total) items docs →
  map APIDocument.id docs
  = map (λ item : nat * string, generate_id (url +:+ "_" +:+ of_nat item.1)) items.
Proof.
  induction 1 as [|item doc items docs Hdoc _ IH]; simpl; [done|].
  destruct Hdoc as (-> & _). by rewrite IH.
Qed.

Lemma chunk_of_contents (url : string) (doc_type : DocumentType)
  (metadata : gmap string pyval) (total : nat)
  (items : list (nat * string)) (docs : list APIDocument.t) :
  Forall2 (chunk_of url doc_type metadata total) items docs →
  map APIDocument.content docs = map snd items.
Proof.
  induction 1 as [|item doc items docs Hdoc _ IH]; simpl; [done|].
  destruct Hdoc as (_ & -> & _). by rewrite IH.
Qed.

Lemma chunk_of_metadata (url : string) (doc_type : DocumentType)
  (metadata : gmap string pyval) (total : nat) (item : nat * string)
  (doc : APIDocument.t) :
  chunk_of url doc_type metadata total item doc →
  chunk_index doc = Some (PInt (Z.of_nat item.1))
  ∧ APIDocument.metadata doc !! "total_chunks" = Some (PInt (Z.of_nat total))
  ∧ APIDocument.metadata doc !! "chunk_size" = Some (PInt (len item.2)).
Proof.
  intros (_ & _ & _ & _ & _ & _ & Hmd). unfold chunk_index. rewrite Hmd.
  by simplify_map_eq.
Qed.

End SingleDocument.

(** ** The assembler's guarantees *)

Section AssemblerGuarantees.
Context `{Runtime}.
Import Str.

(** C5: for a processor within the segmenter's constraints, two calls of
    [_create_chunks] on the same content, url, type and metadata, in any two
    worlds, return chunks with the same ids in the same order: the id of the
    chunk for the segment at raw position [i] is [generate_id] of the url,
    "_" and [i] in decimal, and consists of 16 hexadecimal characters. *)
Theorem create_chunks_ids_idempotent (fuel : nat) (self : DocumentProcessor.t)
  (content url : string) (doc_type : DocumentType) (metadata : gmap string pyval)
  (w1 w2 : World) :
  well_configured self → (String.length content ≤ fuel)%nat →
  ∃ segments docs1 docs2 w1' w2',
    chunk_text fuel content (DocumentProcessor.chunk_size self)
      (DocumentProcessor.chunk_overlap self) = Returned segments
    ∧ DocumentProcessor._create_chunks fuel self content url doc_type metadata w1
      = (Returned docs1, w1')
    ∧ DocumentProcessor._create_chunks fuel self content url doc_type metadata w2
      = (Returned docs2, w2')
    ∧ map APIDocument.id docs1 = map APIDocument.id docs2
    ∧ map APIDocument.id docs1
      = map (λ item : nat * string, generate_id (url +:+ "_" +:+ of_nat item.1))
          (List.filter kept_item (enumerate segments))
    ∧ Forall (λ doc, is_hex16 (APIDocument.id doc)) docs1.
Proof.
  intros Hconf Hfuel.
  destruct (well_configured_segments fuel self content Hconf Hfuel) as [segments Hseg].
  destruct (create_chunks_returns fuel self content url doc_type metadata w1 segments Hseg)
    as (docs1 & w1' & Hret1 & Hdocs1 & _).
  destruct (create_chunks_returns fuel self content url doc_type metadata w2 segments Hseg)
    as (docs2 & w2' & Hret2 & Hdocs2 & _).
  exists segments, docs1, docs2, w1', w2'.
  apply chunk_of_ids in Hdocs1 as Hids1. apply chunk_of_ids in Hdocs2 as Hids2.
  repeat split; try done; [congruence|].
  apply List.Forall_forall. intros doc Hdoc.
  apply (in_map APIDocument.id) in Hdoc. rewrite Hids1 in Hdoc.
  apply in_map_iff in Hdoc as (item & <- & _). apply generate_id_hex16.
Qed.

(** C6: for a processor within the segmenter's constraints, the contents of
    the chunks [_create_chunks] returns are the segments whose trimmed text
    has at least 50 characters, in order: the shorter ones are skipped, and
    every chunk's trimmed content has at least 50 characters. *)
Theorem create_chunks_drops_short_segments (fuel : nat) (self : DocumentProcessor.t)
  (content url : string) (doc_type : DocumentType) (metadata : gmap string pyval)
  (w : World) :
  well_configured self → (String.length content ≤ fuel)%nat →
  ∃ segments docs w',
    chunk_text fuel content (DocumentProcessor.chunk_size self)
      (DocumentProcessor.chunk_overlap self) = Returned segments
    ∧ DocumentProcessor._create_chunks fuel self content url doc_type metadata w
      = (Returned docs, w')
    ∧ map APIDocument.content docs
      = List.filter (λ segment, 50 <=? len (strip segment)) segments
    ∧ Forall (λ doc, 50 ≤ len (strip (APIDocument.content doc))) docs.
Proof.
  intros Hconf Hfuel.
  destruct (well_configured_segments fuel self content Hconf Hfuel) as [segments Hseg].
  destruct (create_chunks_returns fuel self content url doc_type metadata w segments Hseg)
    as (docs & w' & Hret & Hdocs & _).
  exists segments, docs, w'.
  apply chunk_of_contents in Hdocs as Hcontents.
  unfold enumerate in Hcontents. rewrite kept_items_segments in Hcontents.
  repeat split; try done.
  apply List.Forall_forall. intros doc Hdoc.
  apply (in_map APIDocument.content) in Hdoc. rewrite Hcontents in Hdoc.
  apply filter_In in Hdoc as [_ Hkept].
  unfold kept in Hkept. by apply Z.leb_le.
Qed.

End AssemblerGuarantees.

Lemma small_processor_well_configured : well_configured small_processor.
Proof. unfold well_configured. simpl. lia. Qed.

Lemma create_chunks_ids_idempotent_witness :
  ∃ segments docs1 docs2 w1' w2',
    chunk_text 230 gappy_text 60 5 = Returned segments
    ∧ DocumentProcessor._create_chunks (H := sample_runtime) 230 small_processor
        gappy_text "http://test.com" OVERVIEW ∅ sample_world
      = (Returned docs1, w1')
    ∧ DocumentProcessor._create_chunks (H := sample_runtime) 230 small_processor
        gappy_text "http://test.com" OVERVIEW ∅ (tick sample_world)
      = (Returned docs2, w2')
    ∧ map APIDocument.id docs1 = map APIDocument.id docs2
    ∧ map APIDocument.id docs1
      = map (λ item : nat * string,
               generate_id ("http://test.com" +:+ "_" +:+ Str.of_nat item.1))
          (List.filter kept_item (enumerate segments))
    ∧ Forall (λ doc, is_hex16 (APIDocument.id doc)) docs1.
Proof.
  apply (create_chunks_ids_idempotent (H := sample_runtime) 230 small_processor
           gappy_text "http://test.com" OVERVIEW ∅ sample_world (tick sample_world)).
  - apply small_processor_well_configured.
  - vm_compute. lia.
Defined.

Lemma create_chunks_drops_short_segments_witness :
  ∃ segments docs w',
    chunk_text 230 gappy_text 60 5 = Returned segments
    ∧ DocumentProcessor._create_chunks (H := sample_runtime) 230 small_processor
        gappy_text "http://test.com" OVERVIEW ∅ sample_world
      = (Returned docs, w')
    ∧ map APIDocument.content docs
      = List.filter (λ segment, 50 <=? Str.len (Str.strip segment)) segments
    ∧ Forall (λ doc, 50 ≤ Str.len (Str.strip (APIDocument.content doc))) docs.
Proof.
  apply (create_chunks_drops_short_segments (H := sample_runtime) 230 small_processor
           gappy_text "http://test.com" OVERVIEW ∅ sample_world).
  - apply small_processor_well_configured.
  - vm_compute. lia.
Defined.

(** ** Chunk positions and counts *)

(** C7: for a processor within the segmenter's constraints, the chunks
    [_create_chunks] returns correspond one to one, in order, to the kept
    items of the enumeration of the raw segments: a chunk's [chunk_index] is
    the position of its segment among the raw segments, its id is built from
    that position and its content is the segment there; these positions
    increase along the output. They may skip values: for [gappy_text] the
    chunks have the indices 0 and 3. *)
Theorem create_chunks_keeps_raw_positions :
  (∀ (H : Runtime) (fuel : nat) (self : DocumentProcessor.t) (content url : string)
     (doc_type : DocumentType) (metadata : gmap string pyval) (w : World),
     well_configured self → (String.length content ≤ fuel)%nat →
     ∃ segments docs w',
       chunk_text fuel content (DocumentProcessor.chunk_size self)
         (DocumentProcessor.chunk_overlap self) = Returned segments
       ∧ DocumentProcessor._create_chunks fuel self content url doc_type metadata w
         = (Returned docs, w')
       ∧ Forall2 (λ (item : nat * string) doc,
                    chunk_index doc = Some (PInt (Z.of_nat item.1))
                    ∧ APIDocument.id doc
                      = generate_id (url +:+ "_" +:+ Str.of_nat item.1)
                    ∧ APIDocument.content doc = item.2
                    ∧ segments !! item.1 = Some item.2)
           (List.filter kept_item (enumerate segments)) docs
       ∧ StronglySorted lt (map fst (List.filter kept_item (enumerate segments))))
  ∧ (∃ docs w',
       DocumentProcessor._create_chunks (H := sample_runtime) 230 small_processor
         gappy_text "http://test.com" OVERVIEW ∅ sample_world = (Returned docs, w')
       ∧ map chunk_index docs = [Some (PInt 0); Some (PInt 3)]).
Proof.
  split.
  - intros H fuel self content url doc_type metadata w Hconf Hfuel.
    destruct (well_configured_segments fuel self content Hconf Hfuel) as [segments Hseg].
    destruct (create_chunks_returns fuel self content url doc_type metadata w
                segments Hseg) as (docs & w' & Hret & Hdocs & _).
    exists segments, docs, w'. repeat split; try done.
    + apply Forall2_same_length_lookup. split; [by eapply Forall2_length|].
      intros k item doc Hitem Hdoc.
      pose proof (Forall2_lookup_lr _ _ _ _ _ _ Hdocs Hitem Hdoc) as Hchunk.
      destruct (chunk_of_metadata _ _ _ _ _ _ Hchunk) as (Hindex & _).
      destruct Hchunk as (Hid & Hcontent & _).
      apply list_elem_of_lookup_2, kept_items_lookup in Hitem as [Hlook _].
      by repeat split.
    + apply kept_items_increasing.
  - eexists _, _. split; [vm_compute; reflexivity|]. vm_compute. reflexivity.
Qed.

Lemma create_chunks_keeps_raw_positions_witness :
  ∃ segments docs w',
    chunk_text 230 gappy_text 60 5 = Returned segments
    ∧ DocumentProcessor._create_chunks (H := sample_runtime) 230 small_processor
        gappy_text "http://test.com" OVERVIEW ∅ sample_world = (Returned docs, w')
    ∧ Forall2 (λ (item : nat * string) doc,
                 chunk_index doc = Some (PInt (Z.of_nat item.1))
                 ∧ APIDocument.id doc
                   = generate_id ("http://test.com" +:+ "_" +:+ Str.of_nat item.1)
                 ∧ APIDocument.content doc = item.2
                 ∧ segments !! item.1 = Some item.2)
        (List.filter kept_item (enumerate segments)) docs
    ∧ StronglySorted lt (map fst (List.filter kept_item (enumerate segments))).
Proof.
  apply (proj1 create_chunks_keeps_raw_positions sample_runtime 230%nat small_processor
           gappy_text "http://test.com" OVERVIEW ∅ sample_world).
  - apply small_processor_well_configured.
  - vm_compute. lia.
Defined.

(** C9: for a processor within the segmenter's constraints,
    [_process_single_document] returns a document whose chunks all carry, as
    [total_chunks] in their metadata, the number of raw segments, while its
    own [total_chunks] is the number of chunks, that is of kept segments. For
    the document with content [gappy_text] the first is 5 and the second 2. *)
Theorem total_chunks_counts_raw_segments :
  (∀ (H : Runtime) (fuel : nat) (self : DocumentProcessor.t)
     (raw_doc : RawDocument.t) (w : World),
     well_configured self → (String.length (RawDocument.content raw_doc) ≤ fuel)%nat →
     ∃ segments pd w',
       chunk_text fuel (RawDocument.content raw_doc) (DocumentProcessor.chunk_size self)
         (DocumentProcessor.chunk_overlap self) = Returned segments
       ∧ DocumentProcessor._process_single_document fuel self raw_doc w
         = (Returned pd, w')
       ∧ Forall (λ doc, APIDocument.metadata doc !! "total_chunks"
                        = Some (PInt (Z.of_nat (length segments))))
           (ProcessedDocument.chunks pd)
       ∧ ProcessedDocument.total_chunks pd
         = Z.of_nat (length (ProcessedDocument.chunks pd))
       ∧ length (ProcessedDocument.chunks pd) = length (List.filter kept segments))
  ∧ (∃ pd w',
       DocumentProcessor._process_single_document (H := sample_runtime) 230
         small_processor (sample_doc "http://test.com" gappy_text) sample_world
       = (Returned pd, w')
       ∧ ProcessedDocument.total_chunks pd = 2
       ∧ map (λ doc, APIDocument.metadata doc !! "total_chunks")
           (ProcessedDocument.chunks pd)
         = [Some (PInt 5); Some (PInt 5)]).
Proof.
  split.
  - intros H fuel self raw_doc w Hconf Hfuel.
    destruct (well_configured_segments fuel self _ Hconf Hfuel) as [segments Hseg].
    destruct (process_single_returns fuel self raw_doc w segments Hseg)
      as (pd & w' & Hret & _ & _ & Htotal & Hdocs).
    exists segments, pd, w'. repeat split; try done.
    + apply Forall_forall. intros doc Hdoc.
      apply list_elem_of_lookup in Hdoc as [k Hdoc].
      destruct (Forall2_lookup_r _ _ _ _ _ Hdocs Hdoc) as (item & _ & Hchunk).
      by destruct (chunk_of_metadata _ _ _ _ _ _ Hchunk) as (_ & Htc & _).
    + apply Forall2_length in Hdocs. rewrite <- Hdocs.
      unfold enumerate. by rewrite <- (kept_items_segments 0), length_map.
  - eexists _, _. split; [vm_compute; reflexivity|].
    split; vm_compute; reflexivity.
Qed.

Lemma total_chunks_counts_raw_segments_witness :
  ∃ segments pd w',
    chunk_text 230 gappy_text 60 5 = Returned segments
    ∧ DocumentProcessor._process_single_document (H := sample_runtime) 230
        small_processor (sample_doc "http://test.com" gappy_text) sample_world
      = (Returned pd, w')
    ∧ Forall (λ doc, APIDocument.metadata doc !! "total_chunks"
                     = Some (PInt (Z.of_nat (length segments))))
        (ProcessedDocument.chunks pd)
    ∧ ProcessedDocument.total_chunks pd
      = Z.of_nat (length (ProcessedDocument.chunks pd))
    ∧ length (ProcessedDocument.chunks pd) = length (List.filter kept segments).
Proof.
  apply (proj1 total_chunks_counts_raw_segments sample_runtime 230%nat small_processor
           (sample_doc "http://test.com" gappy_text) sample_world).
  - apply small_processor_well_configured.
  - vm_compute. lia.
Defined.

(** ** The batch processor *)

Section BatchProcessor.
Context `{Runtime}.

(** The loop returns when no document exhausts the segmenter's fuel; it
    appends one result for each document, in order. *)
Lemma process_loop_returns (fuel : nat) (self : DocumentProcessor.t)
  (raw_docs : list RawDocument.t) (processed_docs : list ProcessedDocument.t)
  (w : World) :
  Forall (segmentable fuel self) raw_docs →
  ∃ out w',
    DocumentProcessor.process_loop fuel self raw_docs processed_docs w
    = (Returned (processed_docs ++ out), w')
    ∧ Forall2 (recorded_for fuel self) raw_docs out.
Proof.
  revert processed_docs w.
  induction raw_docs as [|raw_doc raw_docs IH]; intros processed_docs w Hall.
  - exists [], w. simpl. rewrite app_nil_r. by split.
  - apply Forall_cons in Hall as [Hdoc Hall]. unfold segmentable in Hdoc.
    simpl.
    destruct (chunk_text fuel (RawDocument.content raw_doc)
                (DocumentProcessor.chunk_size self)
                (DocumentProcessor.chunk_overlap self))
      as [segments|e|] eqn:Hseg; [| |done].
    + destruct (process_single_returns fuel self raw_doc w segments Hseg)
        as (pd & w1 & Hret & Hurl & Herrors & _).
      rewrite Hret.
      destruct (IH (processed_docs ++ [pd]) w1 Hall) as (out & w' & -> & Hout).
      exists (pd :: out), w'. rewrite <- app_assoc. split; [done|].
      constructor; [|done]. split; [done|]. left. by exists w, w1.
    + rewrite (process_single_raises fuel self raw_doc w e Hseg).
      unfold mbind, Py_bind, logger_error.
      match goal with |- context [DocumentProcessor.process_loop _ _ _ _ ?w2] =>
        destruct (IH (processed_docs ++ [DocumentProcessor.failed raw_doc e]) w2 Hall)
          as (out & w' & -> & Hout)
      end.
      exists (DocumentProcessor.failed raw_doc e :: out), w'.
      rewrite <- app_assoc. split; [done|].
      constructor; [|done]. split; [done|]. right.
      exists w, (tick w), e. split; [|done].
      by apply process_single_raises.
Qed.

(** C3: when no document exhausts the segmenter's fuel,
    [process_raw_documents] returns one processed document for each raw
    document, in input order; each is decided by its own raw document alone:
    it is what [_process_single_document] returned for that document, with
    no error, or, when that call raised [e], the document with no chunk,
    [total_chunks = 0], [processing_time = 0] and [errors = [e]]. *)
Theorem process_raw_documents_isolates_failures (fuel : nat)
  (self : DocumentProcessor.t) (raw_docs : list RawDocument.t) (w : World) :
  Forall (segmentable fuel self) raw_docs →
  ∃ out w',
    DocumentProcessor.process_raw_documents fuel self raw_docs w = (Returned out, w')
    ∧ length out = length raw_docs
    ∧ Forall2 (recorded_for fuel self) raw_docs out.
Proof.
  intros Hall. unfold DocumentProcessor.process_raw_documents.
  destruct (process_loop_returns fuel self raw_docs [] w Hall)
    as (out & w' & Hret & Hout).
  exists out, w'. split; [done|]. split; [|done].
  symmetry. by eapply Forall2_length.
Qed.

(** Within the segmenter's constraints, fuel up to the longest content is
    enough for the whole batch. *)
Lemma well_configured_segmentable (fuel : nat) (self : DocumentProcessor.t)
  (raw_doc : RawDocument.t) :
  well_configured self → (String.length (RawDocument.content raw_doc) ≤ fuel)%nat →
  segmentable fuel self raw_doc.
Proof.
  intros Hconf Hfuel. unfold segmentable.
  destruct (well_configured_segments fuel self _ Hconf Hfuel) as [segments ->]. done.
Qed.

End BatchProcessor.

Lemma process_raw_documents_isolates_failures_witness :
  ∃ out w',
    DocumentProcessor.process_raw_documents (H := sample_runtime) 10
      negative_processor three_docs sample_world = (Returned out, w')
    ∧ length out = length three_docs
    ∧ Forall2 (recorded_for (H := sample_runtime) 10 negative_processor) three_docs out.
Proof.
  apply (process_raw_documents_isolates_failures (H := sample_runtime) 10
           negative_processor three_docs sample_world).
  repeat constructor; unfold segmentable; vm_compute; discriminate.
Defined.

Example process_raw_documents_second_raises :
  ∃ w',
    DocumentProcessor.process_raw_documents (H := sample_runtime) 10
      negative_processor three_docs sample_world
    = (Returned
         [ProcessedDocument.Build "http://a" [] 0 0.25 [];
          ProcessedDocument.Build "http://b" [] 0 0 ["string index out of range"];
          ProcessedDocument.Build "http://c" [] 0 0.25 []], w')
    ∧ error_log w'
      = ["Error processing document from http://b: string index out of range"].
Proof. eexists. split; vm_compute; reflexivity. Qed.

(** ** The validator of [APIDocument.id] *)

Section IdValidator.
Import Str.

(** C10, a defect of the code: [id] is the first field declared, so its
    validator is handed none of the other fields. A document built with
    [id=None] gets the id [generate_id ""], that is "d41d8cd98f00b204",
    whatever its content and its source url: not the digest of the first 100
    characters of the content followed by the url, which the body of the
    validator computes from the [values] it reads, and the same id for
    documents that differ in content and in url. The validator of a later
    field would see the content; a given id is kept as it is. *)
Theorem validated_id_ignores_content_and_url :
  (∀ given, APIDocument.values_for "id" given = ∅)
  ∧ (∀ given, APIDocument.validated_id None given = "d41d8cd98f00b204")
  ∧ APIDocument.generate_id_if_missing None
      (sample_arguments "hello world" "http://test.com")
    = generate_id ("hello world" +:+ "http://test.com")
  ∧ APIDocument.validated_id None (sample_arguments "hello world" "http://test.com")
    ≠ generate_id ("hello world" +:+ "http://test.com")
  ∧ APIDocument.validated_id None (sample_arguments "hello world" "http://test.com")
    = APIDocument.validated_id None (sample_arguments "other text" "http://other.org")
  ∧ APIDocument.values_for "source_url"
      (sample_arguments "hello world" "http://test.com") !! "content"
    = Some "hello world"
  ∧ (∀ v given, APIDocument.validated_id (Some v) given = v).
Proof.
  assert (Hempty : ∀ given, APIDocument.values_for "id" given = ∅).
  { intros given. apply map_eq. intros key. rewrite lookup_empty.
    apply map_lookup_filter_None. right. intros value _ Hin.
    by apply elem_of_nil in Hin. }
  assert (Hid : ∀ given, APIDocument.validated_id None given = "d41d8cd98f00b204").
  { intros given. unfold APIDocument.validated_id. rewrite Hempty.
    vm_compute. reflexivity. }
  split; [exact Hempty|]. split; [exact Hid|].
  split; [vm_compute; reflexivity|].
  split; [rewrite Hid; vm_compute; congruence|].
  split; [by rewrite !Hid|]. split; [|reflexivity].
  unfold APIDocument.values_for. apply map_lookup_filter_Some.
  split; [vm_compute; reflexivity|].
  replace (APIDocument.fields_before "source_url" APIDocument.fields)
    with ["id"; "content"; "document_type"] by (vm_compute; reflexivity).
  apply elem_of_cons. right. apply elem_of_cons. by left.
Qed.

End IdValidator.

(** * Further properties

    ** The segmenter outside and at the edge of its constraints *)

Section SegmenterEdges.
Import Str StrFacts.

(** Whatever the indices, a forward scan that returns gives back the end it
    was handed or the position after one of the indices. *)
Lemma snap_end_returned (text : string) (idxs : list Z) (end_ end' : Z) :
  snap_end text idxs end_ = Returned end' →
  end' = end_ ∨ ∃ i, i ∈ idxs ∧ end' = i + 1.
Proof.
  induction idxs as [|i idxs IH]; simpl.
  - intros [= <-]. by left.
  - destruct (index text i) as [c| |]; simpl; [|done|done].
    destruct (char_in c boundary_chars).
    + intros [= <-]. right. exists i. split; [by left|done].
    + intros [->|(j & Hj & ->)]%IH; [by left|right].
      exists j. split; [by right|done].
Qed.

(** With an overlap that is not below the window size, an iteration that
    starts inside the text leaves [start] inside the text. *)
Lemma chunk_step_stays_inside (text : string) (chunk_size overlap start : Z)
  (chunk : option string) (next : Z) :
  chunk_size ≤ overlap → start < len text →
  chunk_step text chunk_size overlap start = Returned (chunk, next) →
  next < len text.
Proof.
  intros Hov Hstart. unfold chunk_step.
  destruct (if 0 <? start then _ else _) as [start'| |]; simpl; [|done|done].
  destruct (start + chunk_size <? len text) eqn:Eend.
  - destruct (snap_end _ _ _) as [end'| |] eqn:Hsnap; simpl; [|done|done].
    intros [= _ <-].
    apply snap_end_returned in Hsnap as [->|(i & Hi & ->)]; [lia|].
    apply elem_of_range in Hi. lia.
  - simpl. intros [= _ <-]. lia.
Qed.

Lemma chunk_loop_never_returns (fuel : nat) (text : string)
  (chunk_size overlap start : Z) (chunks out : list string) :
  chunk_size ≤ overlap → start < len text →
  chunk_loop fuel text chunk_size overlap start chunks ≠ Returned out.
Proof.
  intros Hov. revert start chunks.
  induction fuel as [|fuel IH]; intros start chunks Hstart; simpl.
  - destruct (start <? len text) eqn:E; [done|apply Z.ltb_ge in E; lia].
  - destruct (start <? len text) eqn:E; [|apply Z.ltb_ge in E; lia].
    destruct (chunk_step text chunk_size overlap start) as [[chunk next]| |] eqn:Hstep;
      simpl; [|done|done].
    apply IH. by eapply chunk_step_stays_inside.
Qed.

Lemma chunk_text_never_returns (fuel : nat) (text : string)
  (chunk_size overlap : Z) (chunks : list string) :
  chunk_size ≤ overlap → text ≠ EmptyString →
  chunk_text fuel text chunk_size overlap ≠ Returned chunks.
Proof.
  intros Hov Htext. unfold chunk_text.
  destruct text as [|c text]; [done|]. simpl nonempty. cbv iota.
  apply chunk_loop_never_returns; [done|]. unfold len. simpl. lia.
Qed.

(** X1: when the overlap is not below the window size, the segmenter never
    returns on a non-empty text: with any amount of fuel it raises or is
    still running. *)
Theorem chunk_text_needs_overlap_below_size (fuel : nat) (text : string)
  (chunk_size overlap : Z) (chunks : list string) :
  chunk_size ≤ overlap → text ≠ EmptyString →
  chunk_text fuel text chunk_size overlap ≠ Returned chunks.
Proof.
  intros Hov Htext Hret.
  destruct (chunk_text fuel text chunk_size overlap) as [out| |] eqn:Hseg;
    [|done|done].
  by apply (chunk_text_never_returns fuel text chunk_size overlap out).
Qed.

Lemma chunk_text_needs_overlap_below_size_witness :
  100 ≤ 200
  ∧ chunk_text 50 "abc def." 100 200 ≠ Returned ["abc def."].
Proof. split; [lia|]. apply chunk_text_needs_overlap_below_size; [lia|done]. Defined.

Example chunk_text_large_overlap_raises :
  chunk_text 50 "abc def." 100 200 = Raised "string index out of range".
Proof. vm_compute. reflexivity. Qed.

End SegmenterEdges.

Section SegmenterCounts.
Import Str StrFacts.

Lemma substring_all (s : string) : String.substring 0 (String.length s) s = s.
Proof. induction s as [|c s IH]; simpl; [done|]. by rewrite IH. Qed.

(** A slice from 0 to a bound at or past the end is the whole text. *)
Lemma slice_whole (text : string) (b : Z) : len text ≤ b → slice text 0 b = text.
Proof.
  intros Hb. unfold slice, clamp.
  destruct (0 <? 0) eqn:E0; [done|].
  destruct (b <? 0) eqn:Eb; [apply Z.ltb_lt in Eb; unfold len in *; lia|].
  replace (Z.to_nat (Z.min 0 (len text))) with 0%nat by (unfold len; lia).
  replace (Z.to_nat (Z.min b (len text) - Z.min 0 (len text)))
    with (String.length text) by (unfold len in *; lia).
  apply substring_all.
Qed.

(** X2: a text that is no longer than [chunk_size - overlap] is returned as
    one chunk, its trimmed text, or as no chunk when it is blank. *)
Theorem chunk_text_short_text (fuel : nat) (text : string) (chunk_size overlap : Z) :
  0 ≤ overlap < chunk_size → len text ≤ chunk_size - overlap → (0 < fuel)%nat →
  chunk_text fuel text chunk_size overlap
  = Returned (if nonempty (strip text) then [strip text] else []).
Proof.
  intros Hov Hlen Hfuel. unfold chunk_text.
  destruct (nonempty text) eqn:Hne; [|by destruct text].
  destruct fuel as [|fuel]; [lia|].
  assert (Hpos : 0 < len text) by (destruct text; [done|unfold len; simpl; lia]).
  assert (Hstep : chunk_step text chunk_size overlap 0
                  = Returned (if nonempty (strip text) then Some (strip text) else None,
                              chunk_size - overlap)).
  { unfold chunk_step. cbn -[slice strip nonempty len Z.add].
    rewrite Z.add_0_l.
    destruct (chunk_size <? len text) eqn:E1; [apply Z.ltb_lt in E1; lia|].
    cbn -[slice strip nonempty len]. by rewrite slice_whole by lia. }
  assert (Hdone : ∀ chunks, chunk_loop fuel text chunk_size overlap
                              (chunk_size - overlap) chunks = Returned chunks).
  { intros chunks. destruct fuel; simpl;
      (destruct (chunk_size - overlap <? len text) eqn:E2;
       [apply Z.ltb_lt in E2; lia|done]). }
  cbn -[chunk_step strip nonempty len].
  destruct (0 <? len text) eqn:E0; [|apply Z.ltb_ge in E0; lia].
  rewrite Hstep. cbn -[strip nonempty len]. rewrite Hdone.
  by destruct (nonempty (strip text)).
Qed.

Lemma chunk_text_short_text_witness :
  chunk_text 1 "  Mars rover photos.  " 100 20
  = Returned (if nonempty (strip "  Mars rover photos.  ")
              then [strip "  Mars rover photos.  "] else []).
Proof. apply chunk_text_short_text; [lia|vm_compute; discriminate|lia]. Defined.

(** A text longer than [chunk_size - overlap], even when shorter than the
    window, gets a second chunk that repeats its tail. *)
Example chunk_text_repeats_tail :
  chunk_text 5 "abcdefghij" 12 4 = Returned ["abcdefghij"; "ij"].
Proof. vm_compute. reflexivity. Qed.

(** The number of iterations left from [start]: the distance to the end of
    the text in steps of [chunk_size - overlap], rounded up. *)
Lemma chunk_loop_count (fuel : nat) (text : string) (chunk_size overlap start : Z)
  (chunks out : list string) :
  0 < chunk_size → 0 ≤ overlap < chunk_size → 0 ≤ start →
  chunk_loop fuel text chunk_size overlap start chunks = Returned out →
  Z.of_nat (length out)
  ≤ Z.of_nat (length chunks)
    + Z.max 0 ((len text - start + (chunk_size - overlap) - 1) / (chunk_size - overlap)).
Proof.
  intros Hsize Hov. revert start chunks.
  induction fuel as [|fuel IH]; intros start chunks Hstart; simpl;
    (destruct (start <? len text) eqn:E; [|intros [= <-]; lia]); [done|].
  apply Z.ltb_lt in E.
  destruct (chunk_step_returns text chunk_size overlap Hsize Hov start Hstart)
    as (chunk & next & -> & Hnext & _).
  simpl. intros Hout. apply IH in Hout; [|lia].
  set (d := chunk_size - overlap) in *.
  assert (Hdiv : (len text - next + d - 1) / d + 1 ≤ (len text - start + d - 1) / d).
  { rewrite <- (Z.div_add _ 1 d) by lia. apply Z.div_le_mono; lia. }
  assert (Hone : 1 ≤ (len text - start + d - 1) / d).
  { apply (Z.div_le_lower_bound _ d 1); lia. }
  assert (Hgrow : Z.of_nat (length (match chunk with
                                    | Some c => chunks ++ [c]
                                    | None => chunks
                                    end)) ≤ Z.of_nat (length chunks) + 1).
  { destruct chunk; [rewrite length_app; simpl|]; lia. }
  lia.
Qed.

(** X3: within its constraints the segmenter returns at most one chunk for
    each step of [chunk_size - overlap] characters that the text spans,
    rounded up. *)
Theorem chunk_text_count (fuel : nat) (text : string) (chunk_size overlap : Z) :
  0 < chunk_size → 0 ≤ overlap < chunk_size →
  (String.length text ≤ fuel)%nat →
  ∃ chunks,
    chunk_text fuel text chunk_size overlap = Returned chunks
    ∧ Z.of_nat (length chunks)
      ≤ (len text + (chunk_size - overlap) - 1) / (chunk_size - overlap).
Proof.
  intros Hsize Hov Hfuel.
  destruct (chunk_text_returns text chunk_size overlap Hsize Hov (λ _, True) fuel)
    as (chunks & Hret & _); [done|done|].
  exists chunks. split; [done|].
  unfold chunk_text in Hret. destruct (nonempty text).
  - apply chunk_loop_count in Hret; [|done|done|lia]. simpl in Hret.
    rewrite Z.sub_0_r in Hret.
    assert (0 ≤ (len text + (chunk_size - overlap) - 1) / (chunk_size - overlap)).
    { apply Z.div_pos; unfold len; lia. }
    lia.
  - injection Hret as <-. simpl. apply Z.div_pos; unfold len; lia.
Qed.

Lemma chunk_text_count_witness :
  ∃ chunks,
    chunk_text 230 gappy_text 60 5 = Returned chunks
    ∧ Z.of_nat (length chunks) ≤ (len gappy_text + (60 - 5) - 1) / (60 - 5).
Proof. apply chunk_text_count; [lia|lia|vm_compute; lia]. Defined.

End SegmenterCounts.

(** ** The windows of the segmenter *)

Section SegmenterWindows.
Import Str StrFacts.

Lemma chunk_step_window (text : string) (chunk_size overlap start : Z) :
  chunk_step text chunk_size overlap start
  = window ← chunk_window text chunk_size overlap start;
    Returned (window_chunk text window, window.2 - overlap).
Proof.
  unfold chunk_step, chunk_window, window_chunk.
  destruct (if 0 <? start then _ else _) as [start'| |]; [|done|done].
  cbn -[strip slice nonempty len].
  by destruct (if start + chunk_size <? len text then _ else _) as [end'| |].
Qed.

Lemma chunk_loop_windows (fuel : nat) (text : string) (chunk_size overlap start : Z)
  (windows : list (Z * Z)) :
  chunk_loop fuel text chunk_size overlap start (window_chunks text windows)
  = windows' ← window_loop fuel text chunk_size overlap start windows;
    Returned (window_chunks text windows').
Proof.
  revert start windows. induction fuel as [|fuel IH]; intros start windows;
    cbn -[chunk_step chunk_window window_chunks window_chunk len];
    (destruct (start <? len text); [|done]); [done|].
  rewrite chunk_step_window.
  destruct (chunk_window text chunk_size overlap start) as [window| |]; [|done|done].
  cbn -[chunk_step chunk_window window_chunks window_chunk len].
  rewrite <- IH. f_equal. unfold window_chunks. rewrite omap_app.
  cbn -[window_chunk].
  destruct (window_chunk text window); simpl; [done|by rewrite app_nil_r].
Qed.

(** Under every configuration and with every amount of fuel, the segmenter's
    outcome is the outcome of cutting the windows, and the chunks it returns
    are the non-empty trimmed slices of the text at these windows, in
    order. *)
Lemma chunk_text_is_trimmed_windows (fuel : nat) (text : string)
  (chunk_size overlap : Z) :
  chunk_text fuel text chunk_size overlap
  = windows ← chunk_windows fuel text chunk_size overlap;
    Returned (window_chunks text windows).
Proof.
  unfold chunk_text, chunk_windows. destruct (nonempty text); [|done].
  apply (chunk_loop_windows fuel text chunk_size overlap 0 []).
Qed.

(** Within the constraints an iteration's window starts at 0 in the first
    iteration and at most one character after [start] later on, and ends
    between [start + chunk_size] and [start + chunk_size + overlap]. *)
Lemma chunk_window_returns (text : string) (chunk_size overlap start : Z) :
  0 < chunk_size → 0 ≤ overlap < chunk_size → 0 ≤ start →
  ∃ a b,
    chunk_window text chunk_size overlap start = Returned (a, b)
    ∧ 0 ≤ a ≤ start + Z.min 1 overlap
    ∧ (start = 0 → a = 0)
    ∧ start + chunk_size ≤ b ≤ start + chunk_size + overlap.
Proof.
  intros Hsize Hov Hstart. unfold chunk_window.
  assert (Hs : ∃ a,
    (if 0 <? start
     then snap_start text (range_down start (Z.max (start - overlap) 0)) start
     else Returned start) = Returned a
    ∧ 0 ≤ a ≤ start + Z.min 1 overlap ∧ (start = 0 → a = 0)).
  { destruct (0 <? start) eqn:E0.
    - apply Z.ltb_lt in E0.
      destruct (snap_start_returns text
                  (range_down start (Z.max (start - overlap) 0)) start)
        as (a & -> & Hcase).
      { intros i Hi. apply elem_of_range_down in Hi. lia. }
      exists a. split; [done|].
      destruct Hcase as [->|(i & Hi & ->)]; [lia|].
      apply elem_of_range_down in Hi. lia.
    - apply Z.ltb_ge in E0. exists start. split; [done|lia]. }
  destruct Hs as (a & -> & Ha & Ha0). cbn -[len].
  assert (He : ∃ b,
    (if start + chunk_size <? len text
     then snap_end text
            (range (start + chunk_size)
                   (Z.min (start + chunk_size + overlap) (len text)))
            (start + chunk_size)
     else Returned (start + chunk_size)) = Returned b
    ∧ start + chunk_size ≤ b ≤ start + chunk_size + overlap).
  { destruct (start + chunk_size <? len text) eqn:E1.
    - destruct (snap_end_returns text
                  (range (start + chunk_size)
                         (Z.min (start + chunk_size + overlap) (len text)))
                  (start + chunk_size)) as (b & -> & Hcase).
      { intros i Hi. apply elem_of_range in Hi. lia. }
      exists b. split; [done|].
      destruct Hcase as [->|(i & Hi & ->)]; [lia|].
      apply elem_of_range in Hi. lia.
    - exists (start + chunk_size). split; [done|lia]. }
  destruct He as (b & -> & Hb). cbn. by exists a, b.
Qed.

(** The windows cut from [start] on leave no position of the text out,
    from 0 in the first iteration and from [start + overlap], the end of
    the window before, later on. *)
Lemma window_loop_covers (fuel : nat) (text : string) (chunk_size overlap start : Z)
  (windows : list (Z * Z)) :
  0 < chunk_size → 0 ≤ overlap < chunk_size → 0 ≤ start →
  (Z.to_nat (len text - start) ≤ fuel)%nat →
  ∃ windows',
    window_loop fuel text chunk_size overlap start windows
    = Returned (windows ++ windows')
    ∧ Forall (λ window : Z * Z, 0 ≤ window.1 ≤ window.2) windows'
    ∧ ∀ i, (if start =? 0 then 0 else start + overlap) ≤ i < len text →
           ∃ window : Z * Z, window ∈ windows' ∧ window.1 ≤ i < window.2.
Proof.
  intros Hsize Hov. revert start windows.
  induction fuel as [|fuel IH]; intros start windows Hstart Hfuel;
    cbn -[chunk_window len];
    (destruct (start <? len text) eqn:E;
     [apply Z.ltb_lt in E|apply Z.ltb_ge in E]); try lia.
  - exists []. rewrite app_nil_r. split; [done|]. split; [done|].
    intros i Hi. destruct (start =? 0) eqn:E0; [apply Z.eqb_eq in E0|]; lia.
  - destruct (chunk_window_returns text chunk_size overlap start Hsize Hov Hstart)
      as (a & b & -> & Ha & Ha0 & Hb).
    cbn -[chunk_window len].
    destruct (IH (b - overlap) (windows ++ [(a, b)])) as (rest & -> & Hall & Hcover);
      [lia|lia|].
    exists ((a, b) :: rest). rewrite <- app_assoc. split; [done|].
    split; [constructor; [simpl; lia|done]|].
    intros i Hi. destruct (Z.lt_ge_cases i b) as [Hlt|Hge].
    + exists (a, b). split; [by left|]. simpl.
      destruct (start =? 0) eqn:E0; [apply Z.eqb_eq in E0|]; lia.
    + destruct (Hcover i) as (window & Hin & Hwin).
      { destruct (b - overlap =? 0) eqn:E1; [apply Z.eqb_eq in E1|]; lia. }
      exists window. split; [by right|done].
  - exists []. rewrite app_nil_r. split; [done|]. split; [done|].
    intros i Hi. destruct (start =? 0) eqn:E0; [apply Z.eqb_eq in E0|]; lia.
Qed.

End SegmenterWindows.

Section SegmenterCoverage.
Import Str StrFacts.

Lemma get_rstrip (k : nat) (s : string) (c : ascii) :
  String.get k s = Some c → isspace c = false → String.get k (rstrip s) = Some c.
Proof.
  revert k. induction s as [|d s IH]; intros k; simpl; [done|].
  destruct k as [|k].
  - intros [= ->] Hc. rewrite Hc. by destruct (rstrip s).
  - intros Hget Hc. specialize (IH k Hget Hc).
    destruct (rstrip s); [by destruct k|done].
Qed.

Lemma nonempty_lstrip (k : nat) (s : string) (c : ascii) :
  String.get k s = Some c → isspace c = false → nonempty (lstrip s) = true.
Proof.
  revert k. induction s as [|d s IH]; intros k; simpl; [done|].
  destruct (isspace d) eqn:Hd; [|done].
  destruct k as [|k]; [intros [= ->] Hc; congruence|]. apply IH.
Qed.

(** A string with a character that is not whitespace is not blank. *)
Lemma nonempty_strip (k : nat) (s : string) (c : ascii) :
  String.get k s = Some c → isspace c = false → nonempty (strip s) = true.
Proof.
  intros Hget Hc. unfold strip.
  by apply (nonempty_lstrip k _ c); [apply get_rstrip|].
Qed.

(** A slice holds the characters of the text at its positions. *)
Lemma get_slice (text : string) (a b i : Z) :
  0 ≤ a → a ≤ i < b → i < len text →
  String.get (Z.to_nat (i - a)) (slice text a b) = String.get (Z.to_nat i) text.
Proof.
  intros Ha Hi Hlen. unfold slice, clamp.
  destruct (a <? 0) eqn:Ea; [apply Z.ltb_lt in Ea; lia|].
  destruct (b <? 0) eqn:Eb; [apply Z.ltb_lt in Eb; lia|].
  rewrite String.substring_correct1 by lia. f_equal. lia.
Qed.

(** X4: within its constraints the segmenter cuts windows that start at or
    before the end of the window before, so that every position of the text
    lies in a window; the chunks it returns are the non-empty trimmed slices
    at these windows, and every character that is not whitespace lies in a
    window whose chunk is returned. *)
Theorem chunk_text_windows_cover (fuel : nat) (text : string) (chunk_size overlap : Z) :
  0 < chunk_size → 0 ≤ overlap < chunk_size →
  (String.length text ≤ fuel)%nat →
  ∃ windows,
    chunk_windows fuel text chunk_size overlap = Returned windows
    ∧ chunk_text fuel text chunk_size overlap = Returned (window_chunks text windows)
    ∧ Forall (λ window : Z * Z, 0 ≤ window.1 ≤ window.2) windows
    ∧ (∀ i, 0 ≤ i < len text →
         ∃ window : Z * Z, window ∈ windows ∧ window.1 ≤ i < window.2)
    ∧ (∀ (i : nat) c,
         String.get i text = Some c → isspace c = false →
         ∃ (window : Z * Z) chunk,
           window ∈ windows ∧ window.1 ≤ Z.of_nat i < window.2
           ∧ window_chunk text window = Some chunk
           ∧ chunk ∈ window_chunks text windows).
Proof.
  intros Hsize Hov Hfuel.
  assert (Hw : ∃ windows,
    chunk_windows fuel text chunk_size overlap = Returned windows
    ∧ Forall (λ window : Z * Z, 0 ≤ window.1 ≤ window.2) windows
    ∧ (∀ i, 0 ≤ i < len text →
         ∃ window : Z * Z, window ∈ windows ∧ window.1 ≤ i < window.2)).
  { unfold chunk_windows. destruct (nonempty text) eqn:Hne.
    - destruct (window_loop_covers fuel text chunk_size overlap 0 [] Hsize Hov)
        as (windows & Hret & Hall & Hcover); [lia|unfold len; lia|].
      exists windows. split; [done|]. split; [done|].
      intros i Hi. by apply Hcover.
    - exists []. split; [done|]. split; [done|].
      intros i Hi. destruct text; [unfold len in Hi; simpl in Hi; lia|done]. }
  destruct Hw as (windows & Hret & Hall & Hcover).
  exists windows. split; [done|].
  split; [by rewrite chunk_text_is_trimmed_windows, Hret|].
  split; [done|]. split; [done|].
  intros i c Hget Hc.
  assert (Hi : 0 ≤ Z.of_nat i < len text).
  { split; [lia|]. unfold len. apply Nat2Z.inj_lt.
    destruct (Nat.lt_ge_cases i (String.length text)) as [|Hge]; [done|].
    exfalso. revert i Hget Hge. clear. induction text as [|d s IH]; intros [|i]; simpl;
      try done; try lia. intros Hget Hge. apply (IH i Hget). lia. }
  destruct (Hcover _ Hi) as ([a b] & Hin & Hwin). simpl in Hwin.
  assert (Hab : 0 ≤ a ≤ b).
  { apply (proj1 (Forall_forall _ _) Hall) in Hin. done. }
  assert (Hne : nonempty (strip (slice text a b)) = true).
  { apply (nonempty_strip (Z.to_nat (Z.of_nat i - a)) _ c); [|done].
    rewrite get_slice by lia. by rewrite Nat2Z.id. }
  exists (a, b), (strip (slice text a b)).
  assert (Hchunk : window_chunk text (a, b) = Some (strip (slice text a b))).
  { unfold window_chunk. simpl. by rewrite Hne. }
  split; [done|]. split; [done|]. split; [done|].
  unfold window_chunks. apply list_elem_of_omap. by exists (a, b).
Qed.

Lemma chunk_text_windows_cover_witness :
  ∃ windows,
    chunk_windows 11 "a.bcdefgh.k" 4 3 = Returned windows
    ∧ chunk_text 11 "a.bcdefgh.k" 4 3 = Returned (window_chunks "a.bcdefgh.k" windows)
    ∧ Forall (λ window : Z * Z, 0 ≤ window.1 ≤ window.2) windows
    ∧ (∀ i, 0 ≤ i < len "a.bcdefgh.k" →
         ∃ window : Z * Z, window ∈ windows ∧ window.1 ≤ i < window.2)
    ∧ (∀ (i : nat) c,
         String.get i "a.bcdefgh.k" = Some c → isspace c = false →
         ∃ (window : Z * Z) chunk,
           window ∈ windows ∧ window.1 ≤ Z.of_nat i < window.2
           ∧ window_chunk "a.bcdefgh.k" window = Some chunk
           ∧ chunk ∈ window_chunks "a.bcdefgh.k" windows).
Proof. apply chunk_text_windows_cover; [lia|lia|simpl; lia]. Defined.

Example chunk_windows_snaps :
  chunk_windows 8 "a.bcdefgh.k" 4 3
  = Returned [(0, 4); (2, 5); (2, 6); (2, 10); (7, 11); (8, 12); (10, 13); (10, 14)].
Proof. vm_compute. reflexivity. Qed.

End SegmenterCoverage.

Section SegmenterPieces.
Import Str StrFacts.

Lemma append_cons (c : ascii) (s1 s2 : string) :
  String c s1 +:+ s2 = String c (s1 +:+ s2).
Proof. reflexivity. Qed.

Lemma append_assoc (s1 s2 s3 : string) : (s1 +:+ s2) +:+ s3 = s1 +:+ (s2 +:+ s3).
Proof.
  induction s1 as [|c s1 IH]; [done|]. by rewrite !append_cons, IH.
Qed.

Lemma substring_0_piece (m : nat) (s : string) :
  ∃ after, s = String.substring 0 m s +:+ after.
Proof.
  revert m. induction s as [|c s IH]; intros m.
  - exists EmptyString. by destruct m.
  - destruct m as [|m]; simpl; [by exists (String c s)|].
    destruct (IH m) as [after Hs]. exists after. by rewrite append_cons, <- Hs.
Qed.

Lemma substring_piece (n m : nat) (s : string) :
  ∃ before after, s = before +:+ String.substring n m s +:+ after.
Proof.
  revert n. induction s as [|c s IH]; intros n.
  - exists EmptyString, EmptyString. by destruct n, m.
  - destruct n as [|n].
    + destruct (substring_0_piece m (String c s)) as [after Hs].
      by exists EmptyString, after.
    + destruct (IH n) as (before & after & Hs).
      exists (String c before), after. simpl. by rewrite append_cons, <- Hs.
Qed.

Lemma lstrip_piece (s : string) : ∃ before, s = before +:+ lstrip s.
Proof.
  induction s as [|c s IH]; simpl; [by exists EmptyString|].
  destruct (isspace c); [|by exists EmptyString].
  destruct IH as [before Hs]. exists (String c before).
  by rewrite append_cons, <- Hs.
Qed.

Lemma rstrip_piece (s : string) : ∃ after, s = rstrip s +:+ after.
Proof.
  induction s as [|c s IH]; simpl; [by exists EmptyString|].
  destruct IH as [after Hs].
  destruct (rstrip s) as [|d r] eqn:Hr.
  - destruct (isspace c); [by exists (String c s)|].
    exists s. by rewrite append_cons.
  - exists after. by rewrite append_cons, <- Hs.
Qed.

(** A trimmed slice is a contiguous piece of the text. *)
Lemma strip_slice_piece (text : string) (a b : Z) :
  ∃ before after, text = before +:+ strip (slice text a b) +:+ after.
Proof.
  unfold slice, strip.
  destruct (substring_piece (Z.to_nat (clamp (len text) a))
              (Z.to_nat (clamp (len text) b - clamp (len text) a)) text)
    as (before & after & Hs).
  set (piece := String.substring _ _ text) in *.
  destruct (rstrip_piece piece) as [right Hr].
  destruct (lstrip_piece (rstrip piece)) as [left Hl].
  exists (before +:+ left), (right +:+ after).
  rewrite (append_assoc before left).
  rewrite <- (append_assoc left (lstrip (rstrip piece)) (right +:+ after)).
  rewrite <- Hl, <- (append_assoc (rstrip piece) right after), <- Hr.
  exact Hs.
Qed.

(** X5: under every configuration, each chunk the segmenter returns is a
    contiguous piece of the text, and trimming it changes nothing. *)
Theorem chunk_text_chunks_are_pieces (fuel : nat) (text : string)
  (chunk_size overlap : Z) (chunks : list string) :
  chunk_text fuel text chunk_size overlap = Returned chunks →
  Forall (λ chunk, (∃ before after, text = before +:+ chunk +:+ after)
                   ∧ strip chunk = chunk ∧ chunk ≠ EmptyString) chunks.
Proof.
  rewrite chunk_text_is_trimmed_windows.
  destruct (chunk_windows fuel text chunk_size overlap) as [windows| |]; [|done|done].
  intros [= <-]. apply Forall_forall. intros chunk Hin.
  apply list_elem_of_omap in Hin as ([a b] & _ & Hchunk).
  unfold window_chunk in Hchunk. simpl in Hchunk.
  destruct (nonempty (strip (slice text a b))) eqn:Hne; [|done].
  injection Hchunk as <-. split; [apply strip_slice_piece|].
  split; [apply strip_idemp|by apply nonempty_true].
Qed.

Lemma chunk_text_chunks_are_pieces_witness :
  Forall (λ chunk, (∃ before after, "a.bcdefgh.k" = before +:+ chunk +:+ after)
                   ∧ strip chunk = chunk ∧ chunk ≠ EmptyString)
    ["a.bc"; "bcd"; "bcde"; "bcdefgh."; "gh.k"; "h.k"; "k"; "k"].
Proof.
  apply (chunk_text_chunks_are_pieces 8 "a.bcdefgh.k" 4 3). vm_compute. reflexivity.
Defined.

End SegmenterPieces.

(** ** What a processed document looks like *)

Section ProcessedDocuments.
Context `{Runtime}.
Import Str.

(** The four base fields of the metadata are always there. *)
Lemma extract_metadata_base_fields (raw_doc : RawDocument.t) (doc_type : DocumentType) :
  let metadata := DocumentProcessor._extract_metadata raw_doc doc_type in
  metadata !! "source_type" = Some (PStr (RawDocument.content_type raw_doc))
  ∧ metadata !! "document_type" = Some (PStr (DocumentType_value doc_type))
  ∧ metadata !! "scraped_at" = Some (PStr (isoformat (RawDocument.timestamp raw_doc)))
  ∧ metadata !! "url" = Some (PStr (RawDocument.url raw_doc)).
Proof.
  unfold DocumentProcessor._extract_metadata.
  destruct (decide (doc_type = PARAMETER));
    destruct (contains "api.nasa.gov" (RawDocument.url raw_doc));
    try destruct (DocumentProcessor.endpoint_after_hash _);
    by simplify_map_eq.
Qed.

(** What [_process_single_document] does in a world follows the segmenter's
    outcome on the content. *)
Lemma process_single_outcome (fuel : nat) (self : DocumentProcessor.t)
  (raw_doc : RawDocument.t) (w : World) :
  match chunk_text fuel (RawDocument.content raw_doc)
          (DocumentProcessor.chunk_size self) (DocumentProcessor.chunk_overlap self) with
  | Returned segments =>
      ∃ docs w',
        DocumentProcessor._process_single_document fuel self raw_doc w
        = (Returned
             (ProcessedDocument.Build (RawDocument.url raw_doc) docs
                (Z.of_nat (length docs))
                (clock_time (clock_reads w') - clock_time (clock_reads w))%float []),
           tick w')
        ∧ error_log w' = error_log w
        ∧ Forall2 (chunk_of (RawDocument.url raw_doc)
                     (DocumentProcessor._classify_document raw_doc)
                     (DocumentProcessor._extract_metadata raw_doc
                        (DocumentProcessor._classify_document raw_doc))
                     (length segments))
            (List.filter kept_item (enumerate segments)) docs
  | Raised e =>
      DocumentProcessor._process_single_document fuel self raw_doc w
      = (Raised e, tick w)
  | OutOfFuel =>
      DocumentProcessor._process_single_document fuel self raw_doc w
      = (OutOfFuel, tick w)
  end.
Proof.
  destruct (chunk_text _ _ _ _) as [segments|e|] eqn:Hseg.
  - destruct (create_chunks_returns fuel self (RawDocument.content raw_doc)
                (RawDocument.url raw_doc)
                (DocumentProcessor._classify_document raw_doc)
                (DocumentProcessor._extract_metadata raw_doc
                   (DocumentProcessor._classify_document raw_doc))
                (tick w) segments Hseg) as (docs & w' & Hdocs & Hall & Hlog).
    exists docs, w'.
    unfold DocumentProcessor._process_single_document, mbind, Py_bind, time_time.
    rewrite Hdocs. by repeat split.
  - by apply process_single_raises.
  - unfold DocumentProcessor._process_single_document, mbind, Py_bind, time_time,
      DocumentProcessor._create_chunks, lift.
    by rewrite Hseg.
Qed.

End ProcessedDocuments.

Section PipelineInvariants.
Context `{Runtime}.
Import Str.

(** X6: under every configuration, a document that
    [_process_single_document] returns has no error, counts its own chunks,
    and each of its chunks carries the document's url, type, content type
    and timestamp in its fields and metadata, its own length as
    [chunk_size], no embedding, and a content whose trimmed text has at
    least 50 characters. *)
Theorem process_single_document_chunks (fuel : nat) (self : DocumentProcessor.t)
  (raw_doc : RawDocument.t) (w w' : World) (pd : ProcessedDocument.t) :
  DocumentProcessor._process_single_document fuel self raw_doc w = (Returned pd, w') →
  ProcessedDocument.original_url pd = RawDocument.url raw_doc
  ∧ ProcessedDocument.errors pd = []
  ∧ ProcessedDocument.total_chunks pd = Z.of_nat (length (ProcessedDocument.chunks pd))
  ∧ error_log w' = error_log w
  ∧ Forall (λ doc,
              APIDocument.source_url doc = RawDocument.url raw_doc
              ∧ APIDocument.document_type doc
                = DocumentProcessor._classify_document raw_doc
              ∧ APIDocument.embedding doc = None
              ∧ APIDocument.api_endpoint doc = APIDocument.metadata doc !! "api_endpoint"
              ∧ APIDocument.metadata doc !! "url"
                = Some (PStr (APIDocument.source_url doc))
              ∧ APIDocument.metadata doc !! "document_type"
                = Some (PStr (DocumentType_value (APIDocument.document_type doc)))
              ∧ APIDocument.metadata doc !! "source_type"
                = Some (PStr (RawDocument.content_type raw_doc))
              ∧ APIDocument.metadata doc !! "scraped_at"
                = Some (PStr (isoformat (RawDocument.timestamp raw_doc)))
              ∧ APIDocument.metadata doc !! "chunk_size"
                = Some (PInt (len (APIDocument.content doc)))
              ∧ 50 ≤ len (strip (APIDocument.content doc)))
      (ProcessedDocument.chunks pd).
Proof.
  intros Hret. pose proof (process_single_outcome fuel self raw_doc w) as Hout.
  destruct (chunk_text _ _ _ _) as [segments|e|]; [|congruence|congruence].
  destruct Hout as (docs & w1 & Hret1 & Hlog & Hdocs).
  rewrite Hret in Hret1. injection Hret1 as -> ->. simpl.
  repeat split; try done.
  apply Forall_forall. intros doc Hdoc.
  apply list_elem_of_lookup in Hdoc as [k Hdoc].
  destruct (Forall2_lookup_r _ _ _ _ _ Hdocs Hdoc) as ([i segment] & Hitem & Hchunk).
  apply list_elem_of_lookup_2, list_elem_of_In, filter_In in Hitem as [_ Hkept].
  destruct (extract_metadata_base_fields raw_doc
              (DocumentProcessor._classify_document raw_doc))
    as (Hsource & Htype & Hscraped & Hurl).
  destruct Hchunk as (_ & -> & -> & -> & -> & -> & ->). simpl.
  repeat split; try by simplify_map_eq.
  unfold kept_item, kept in Hkept. by apply Z.leb_le.
Qed.

End PipelineInvariants.

Lemma process_single_document_chunks_witness :
  ∃ pd w',
    DocumentProcessor._process_single_document (H := sample_runtime) 230
      small_processor (sample_doc "http://test.com" gappy_text) sample_world
    = (Returned pd, w')
    ∧ ProcessedDocument.errors pd = []
    ∧ ProcessedDocument.total_chunks pd = 2.
Proof.
  eexists _, _. split; [vm_compute; reflexivity|].
  destruct (process_single_document_chunks (H := sample_runtime) 230 small_processor
              (sample_doc "http://test.com" gappy_text) sample_world _ _
              ltac:(vm_compute; reflexivity)) as (_ & Herrors & Htotal & _).
  split; [exact Herrors|exact Htotal].
Defined.

(** ** What a batch looks like *)

Section BatchInvariants.
Context `{Runtime}.

Lemma process_loop_results (fuel : nat) (self : DocumentProcessor.t)
  (raw_docs : list RawDocument.t) (processed_docs out : list ProcessedDocument.t)
  (w w' : World) :
  DocumentProcessor.process_loop fuel self raw_docs processed_docs w
  = (Returned out, w') →
  ∃ new,
    out = processed_docs ++ new
    ∧ map ProcessedDocument.original_url new = map RawDocument.url raw_docs
    ∧ Forall well_formed_result new
    ∧ error_log w' = error_log w ++ error_messages new.
Proof.
  revert processed_docs w.
  induction raw_docs as [|raw_doc raw_docs IH]; intros processed_docs w; simpl.
  - intros [= <- <-]. exists []. by rewrite !app_nil_r.
  - pose proof (process_single_outcome fuel self raw_doc w) as Hout.
    destruct (chunk_text _ _ _ _) as [segments|e|].
    + destruct Hout as (docs & w1 & -> & Hlog & _).
      intros (new & -> & Hurls & Hall & Hlog')%IH.
      eexists (_ :: new). rewrite <- app_assoc. split; [done|].
      split; [simpl; by rewrite Hurls|].
      split; [constructor; [split; [done|by left]|done]|].
      rewrite Hlog'. simpl. by rewrite Hlog.
    + rewrite Hout. unfold mbind, Py_bind, logger_error.
      intros (new & -> & Hurls & Hall & Hlog')%IH.
      exists (DocumentProcessor.failed raw_doc e :: new).
      rewrite <- app_assoc. split; [done|].
      split; [simpl; by rewrite Hurls|].
      split; [constructor; [split; [done|right; by exists e]|done]|].
      rewrite Hlog'. simpl. by rewrite <- app_assoc.
    + by rewrite Hout.
Qed.

Lemma script_all_chunks_concat (processed_docs : list ProcessedDocument.t) :
  script_all_chunks processed_docs
  = concat (map ProcessedDocument.chunks processed_docs).
Proof.
  unfold script_all_chunks.
  assert (Hgen : ∀ acc,
    foldl (λ all_chunks proc_doc, all_chunks ++ ProcessedDocument.chunks proc_doc)
      acc processed_docs
    = acc ++ concat (map ProcessedDocument.chunks processed_docs)).
  { induction processed_docs as [|pd pds IH]; intros acc; simpl.
    - by rewrite app_nil_r.
    - by rewrite IH, app_assoc. }
  apply (Hgen []).
Qed.

(** X7: whenever [process_raw_documents] returns, its results carry the
    urls of the raw documents in input order; each result counts its own
    chunks and has either no error or exactly one error with no chunk and
    no processing time; the error log has grown by exactly one message for
    each failed document, in order; and the number of chunks the pipeline
    script reports is the number of chunks it goes on to embed and store,
    and the sum of the results' [total_chunks]. *)
Theorem process_raw_documents_results (fuel : nat) (self : DocumentProcessor.t)
  (raw_docs : list RawDocument.t) (out : list ProcessedDocument.t) (w w' : World) :
  DocumentProcessor.process_raw_documents fuel self raw_docs w = (Returned out, w') →
  map ProcessedDocument.original_url out = map RawDocument.url raw_docs
  ∧ Forall well_formed_result out
  ∧ error_log w' = error_log w ++ error_messages out
  ∧ script_total_chunks out = Z.of_nat (length (script_all_chunks out))
  ∧ script_total_chunks out = foldr Z.add 0 (map ProcessedDocument.total_chunks out).
Proof.
  intros (new & -> & Hurls & Hall & Hlog)%process_loop_results. simpl.
  repeat split; try done.
  - rewrite script_all_chunks_concat. unfold script_total_chunks.
    clear. induction new as [|pd pds IH]; simpl; [done|].
    rewrite length_app, IH. lia.
  - unfold script_total_chunks. clear -Hall.
    induction Hall as [|pd pds [Htotal _] _ IH]; simpl; [done|].
    by rewrite IH, Htotal.
Qed.

End BatchInvariants.

Lemma process_raw_documents_results_witness :
  map ProcessedDocument.original_url
    [ProcessedDocument.Build "http://a" [] 0 0.25 [];
     ProcessedDocument.Build "http://b" [] 0 0 ["string index out of range"];
     ProcessedDocument.Build "http://c" [] 0 0.25 []]
  = map RawDocument.url three_docs.
Proof.
  apply (process_raw_documents_results (H := sample_runtime) 10 negative_processor
           three_docs _ sample_world
           {| clock_reads := 5;
              error_log :=
                ["Error processing document from http://b: string index out of range"] |}).
  vm_compute. reflexivity.
Defined.

(** ** Configuring a processor *)

Section Configuration.
Context `{Runtime}.
Import Str.

(** X8: a processor built with a window size only, one that is not 0 and
    not above the overlap of the settings, takes its overlap from the
    settings and so never returns a processed document for a non-empty
    content: the segmenter raises or is still running; and an overlap given
    as 0 is replaced by the overlap of the settings. *)
Theorem init_small_chunk_size_never_processes (settings : Settings.t) (n : Z)
  (fuel : nat) (raw_doc : RawDocument.t) (w w' : World) (pd : ProcessedDocument.t) :
  n ≠ 0 → n ≤ Settings.chunk_overlap settings →
  RawDocument.content raw_doc ≠ EmptyString →
  DocumentProcessor._process_single_document fuel
    (DocumentProcessor.init settings (Some n) None) raw_doc w ≠ (Returned pd, w')
  ∧ DocumentProcessor.chunk_overlap (DocumentProcessor.init settings (Some n) (Some 0))
    = Settings.chunk_overlap settings.
Proof.
  intros Hn Hle Hcontent. split; [|done].
  pose proof (process_single_outcome fuel
                (DocumentProcessor.init settings (Some n) None) raw_doc w) as Hout.
  destruct (chunk_text _ _ _ _) as [segments|e|] eqn:Hseg; [|congruence|congruence].
  exfalso. revert Hseg. apply chunk_text_never_returns; [|done].
  simpl. destruct (n =? 0) eqn:E; [apply Z.eqb_eq in E; lia|done].
Qed.

End Configuration.

Lemma init_small_chunk_size_never_processes_witness :
  100 ≤ Settings.chunk_overlap Settings.defaults
  ∧ DocumentProcessor._process_single_document (H := sample_runtime) 50
      (DocumentProcessor.init Settings.defaults (Some 100) None)
      (sample_doc "http://test.com" "abc def.") sample_world
    ≠ (Returned (ProcessedDocument.Build "http://test.com" [] 0 0.25 []),
       tick (tick sample_world))
  ∧ DocumentProcessor.chunk_overlap
      (DocumentProcessor.init Settings.defaults (Some 100) (Some 0))
    = Settings.chunk_overlap Settings.defaults.
Proof.
  split; [simpl; lia|].
  apply (init_small_chunk_size_never_processes (H := sample_runtime)
           Settings.defaults 100 50 (sample_doc "http://test.com" "abc def.")
           sample_world); [lia|simpl; lia|done].
Defined.

Example small_chunk_size_document_fails :
  ∃ w',
    DocumentProcessor.process_raw_documents (H := sample_runtime) 50
      (DocumentProcessor.init Settings.defaults (Some 100) None)
      [sample_doc "http://test.com" "abc def."] sample_world
    = (Returned [ProcessedDocument.Build "http://test.com" [] 0 0
                   ["string index out of range"]], w').
Proof. eexists. vm_compute. reflexivity. Qed.

(** ** The entries of the extracted metadata *)

Section MetadataEntries.
Context `{Runtime}.
Import Str.

Lemma endpoint_after_hash_spec (parts : list string) (endpoint : string) :
  DocumentProcessor.endpoint_after_hash parts = Some endpoint
  ↔ ∃ before after, parts = before ++ "#" :: endpoint :: after ∧ "#" ∉ before.
Proof.
  split.
  - induction parts as [|part parts IH]; simpl; [done|].
    destruct (String.eqb_spec part "#") as [->|Hne].
    + destruct parts as [|next after]; simpl; [done|]. intros [= ->].
      exists [], after. split; [done|]. by apply not_elem_of_nil.
    + intros (before & after & -> & Hnot)%IH.
      exists (part :: before), after. split; [done|].
      by intros [?|?]%elem_of_cons.
  - intros (before & after & -> & Hnot).
    induction before as [|part before IH]; simpl; [done|].
    apply not_elem_of_cons in Hnot as [Hne Hnot].
    destruct (String.eqb_spec part "#") as [->|_]; [done|]. by apply IH.
Qed.

(** No part of a split holds the separator. *)
Lemma split_parts_without_sep (sep : ascii) (s part : string) :
  part ∈ split sep s → sep ∉ String.list_ascii_of_string part.
Proof.
  revert part. induction s as [|c s IH]; intros part; simpl.
  - intros ->%list_elem_of_singleton. apply not_elem_of_nil.
  - destruct (Ascii.eqb_spec c sep) as [->|Hne].
    + intros [->|Hin]%elem_of_cons; [apply not_elem_of_nil|by apply IH].
    + destruct (split sep s) as [|first rest] eqn:Hsplit.
      * intros ->%list_elem_of_singleton. simpl.
        intros [?|?%elem_of_nil]%elem_of_cons; [congruence|done].
      * intros [->|Hin]%elem_of_cons.
        -- simpl. intros [?|Hsep]%elem_of_cons; [congruence|].
           revert Hsep. apply IH. by left.
        -- apply IH. by right.
Qed.

(** X9: the extracted metadata always holds the four base fields; it holds
    [extracted_parameters] exactly for a [PARAMETER] document; it holds
    [api_endpoint] exactly when the url names the documentation domain and,
    split at "/", has a first part "#" with a part after it, which is the
    value and so contains no "/"; and it holds no other key. *)
Theorem extract_metadata_entries (raw_doc : RawDocument.t) (doc_type : DocumentType) :
  let metadata := DocumentProcessor._extract_metadata raw_doc doc_type in
  (metadata !! "source_type" = Some (PStr (RawDocument.content_type raw_doc))
   ∧ metadata !! "document_type" = Some (PStr (DocumentType_value doc_type))
   ∧ metadata !! "scraped_at" = Some (PStr (isoformat (RawDocument.timestamp raw_doc)))
   ∧ metadata !! "url" = Some (PStr (RawDocument.url raw_doc)))
  ∧ metadata !! "extracted_parameters"
    = (if decide (doc_type = PARAMETER)
       then Some (PList (DocumentProcessor._extract_parameters
                           (RawDocument.content raw_doc)))
       else None)
  ∧ (∀ value,
       metadata !! "api_endpoint" = Some value
       ↔ contains "api.nasa.gov" (RawDocument.url raw_doc) = true
         ∧ ∃ before endpoint after,
             split "/" (RawDocument.url raw_doc) = before ++ "#" :: endpoint :: after
             ∧ ("#" ∉ before) ∧ value = PStr endpoint
             ∧ ("/"%char ∉ String.list_ascii_of_string endpoint))
  ∧ (∀ key,
       key ∉ ["source_type"; "document_type"; "scraped_at"; "url"; "api_endpoint";
              "extracted_parameters"] →
       metadata !! key = None).
Proof.
  intros metadata. split; [apply extract_metadata_base_fields|]. split; [|split].
  - unfold metadata, DocumentProcessor._extract_metadata.
    destruct (decide (doc_type = PARAMETER));
      destruct (contains "api.nasa.gov" (RawDocument.url raw_doc));
      try destruct (DocumentProcessor.endpoint_after_hash _);
      by simplify_map_eq.
  - intros value. unfold metadata. rewrite extract_metadata_api_endpoint.
    destruct (contains "api.nasa.gov" (RawDocument.url raw_doc));
      [|split; [done|by intros [? _]]].
    destruct (DocumentProcessor.endpoint_after_hash _) as [endpoint|] eqn:Hend; simpl.
    + apply endpoint_after_hash_spec in Hend as Hparts.
      destruct Hparts as (before & after & Hsplit & Hnot).
      split.
      * intros [= <-]. split; [done|]. exists before, endpoint, after.
        repeat split; try done.
        apply (split_parts_without_sep "/" (RawDocument.url raw_doc)).
        rewrite Hsplit. apply elem_of_app. right. apply elem_of_cons. right. by left.
      * intros (_ & before' & endpoint' & after' & Hsplit' & Hnot' & -> & _).
        assert (Hend' : DocumentProcessor.endpoint_after_hash
                          (split "/" (RawDocument.url raw_doc)) = Some endpoint').
        { apply endpoint_after_hash_spec. by exists before', after'. }
        congruence.
    + split; [done|].
      intros (_ & before & endpoint & after & Hsplit & Hnot & _ & _).
      assert (Hend' : DocumentProcessor.endpoint_after_hash
                        (split "/" (RawDocument.url raw_doc)) = Some endpoint).
      { apply endpoint_after_hash_spec. by exists before, after. }
      congruence.
  - intros key Hkey. unfold metadata, DocumentProcessor._extract_metadata.
    repeat (apply not_elem_of_cons in Hkey as [? Hkey]).
    destruct (decide (doc_type = PARAMETER));
      destruct (contains "api.nasa.gov" (RawDocument.url raw_doc));
      try destruct (DocumentProcessor.endpoint_after_hash _);
      by simplify_map_eq.
Qed.

End MetadataEntries.

Lemma extract_metadata_entries_witness :
  DocumentProcessor._extract_metadata (H := sample_runtime)
    (sample_doc "https://api.nasa.gov/#/apod/today" "x") OVERVIEW !! "api_endpoint"
  = Some (PStr "apod").
Proof.
  apply (proj1 (proj2 (proj2 (extract_metadata_entries (H := sample_runtime)
           (sample_doc "https://api.nasa.gov/#/apod/today" "x") OVERVIEW))) (PStr "apod")).
  split; [reflexivity|].
  exists ["https:"; ""; "api.nasa.gov"], "apod", ["today"].
  repeat split.
  - intros Hin. repeat (apply elem_of_cons in Hin as [Hin|Hin]; [done|]).
    by apply elem_of_nil in Hin.
  - intros Hin. repeat (apply elem_of_cons in Hin as [Hin|Hin]; [done|]).
    by apply elem_of_nil in Hin.
Defined.

(** ** Cleaning scraped text *)

Example clean_text_sample :
  clean_text (UStr.of_string
                (String.concat (String "010"%char EmptyString)
                   ["  NASA   APIs "; ""; String "009"%char "Mars  rover"; "  "]))
  = UStr.of_string "NASA APIs Mars rover".
Proof. vm_compute. reflexivity. Qed.

(** A zero-width space is no whitespace: it stays at the edge of a line and
    inside a word until the noise patterns are replaced, and then parts
    words. *)
Example clean_text_zero_width_space :
  UStr.isspace 0x200b = false
  ∧ clean_text ([0x200b] ++ UStr.of_string "Mars" ++ [0x200b]
                ++ UStr.of_string "rover" ++ [0x200b; 0xa; 0x200e])%N
    = UStr.of_string "Mars rover".
Proof. vm_compute. done. Qed.

Section Runs.
Import UStr.
Variable p : N → bool.

Lemma runs_skip (c : N) (s : list N) :
  p c = true → runs p (c :: s) = runs p s.
Proof. intros Hc. simpl. by rewrite Hc. Qed.

Lemma runs_keep (c : N) (s : list N) :
  p c = false →
  runs p (c :: s)
  = if starts_run p s
    then match runs p s with
         | word :: words => (c :: word) :: words
         | [] => [[c]]
         end
    else [c] :: runs p s.
Proof.
  intros Hc. destruct s as [|d s]; simpl; rewrite Hc; [done|].
  by destruct (p d).
Qed.

Lemma starts_run_runs (s : list N) : starts_run p s = true → runs p s ≠ [].
Proof.
  destruct s as [|c s]; [done|]. intros Hc%negb_true_iff.
  rewrite runs_keep by done.
  destruct (starts_run p s); [by destruct (runs p s)|done].
Qed.

Lemma starts_run_app (a b : list N) (c : N) :
  p c = true → starts_run p (a ++ c :: b) = starts_run p a.
Proof. intros Hc. destruct a; simpl; [by rewrite Hc|done]. Qed.

(** Cutting into runs goes through a character for which [p] holds. *)
Lemma runs_app (a b : list N) (c : N) :
  p c = true → runs p (a ++ c :: b) = runs p a ++ runs p b.
Proof.
  intros Hc. induction a as [|x a IH].
  - by rewrite app_nil_l, runs_skip.
  - rewrite <- app_comm_cons. destruct (p x) eqn:Hx.
    + by rewrite !(runs_skip x).
    + rewrite !(runs_keep x) by done.
      rewrite starts_run_app, IH by done.
      destruct (starts_run p a) eqn:Hsw; [|done].
      apply starts_run_runs in Hsw. by destruct (runs p a).
Qed.

Hypothesis p_whitespace : ∀ c, isspace c = true → p c = true.

Lemma runs_lstrip (s : list N) : runs p (lstrip s) = runs p s.
Proof.
  induction s as [|c s IH]; [done|]. simpl lstrip.
  destruct (isspace c) eqn:Hc; [|done]. by rewrite runs_skip by auto.
Qed.

Lemma rstrip_head (s r : list N) (d : N) :
  rstrip s = d :: r → ∃ s', s = d :: s'.
Proof.
  destruct s as [|c s]; simpl; [done|].
  destruct (rstrip s); [destruct (isspace c)|]; intros [= -> _]; eauto.
Qed.

Lemma runs_rstrip (s : list N) : runs p (rstrip s) = runs p s.
Proof.
  induction s as [|x s IH]; [done|]. simpl rstrip.
  destruct (rstrip s) as [|d r] eqn:Hr.
  - simpl in IH. destruct (isspace x) eqn:Hx.
    + by rewrite runs_skip by auto.
    + destruct (p x) eqn:Hpx.
      * by rewrite !(runs_skip x).
      * rewrite !(runs_keep x) by done. simpl.
        destruct (starts_run p s) eqn:Hsw; [|by rewrite <- IH].
        apply starts_run_runs in Hsw. congruence.
  - destruct (rstrip_head s r d Hr) as [s' ->].
    destruct (p x) eqn:Hx.
    + by rewrite !(runs_skip x).
    + rewrite !(runs_keep x) by done. simpl starts_run.
      by rewrite IH.
Qed.

Lemma runs_strip (s : list N) : runs p (strip s) = runs p s.
Proof. unfold strip. by rewrite runs_lstrip, runs_rstrip. Qed.

(** The runs of lines joined by a character for which [p] holds are the
    runs of the lines. *)
Lemma runs_join (c : N) (lines : list (list N)) :
  p c = true → runs p (join [c] lines) = flat_map (runs p) lines.
Proof.
  intros Hc. induction lines as [|line lines IH]; [done|].
  destruct lines as [|line' lines].
  - simpl. by rewrite app_nil_r.
  - change (join [c] (line :: line' :: lines))
      with (line ++ c :: join [c] (line' :: lines)).
    rewrite runs_app by done. by rewrite IH.
Qed.

Lemma runs_clean_lines (lines : list (list N)) :
  flat_map (runs p) (List.filter nonempty (map strip lines))
  = flat_map (runs p) lines.
Proof.
  induction lines as [|line lines IH]; [done|]. simpl.
  rewrite <- (runs_strip line).
  destruct (strip line) as [|c stripped] eqn:Hline; simpl; [done|].
  by rewrite IH.
Qed.

Lemma runs_are_runs (s : list N) : Forall (is_run p) (runs p s).
Proof.
  induction s as [|c s IH]; [constructor|].
  destruct (p c) eqn:Hc.
  - by rewrite runs_skip.
  - rewrite runs_keep by done.
    assert (Hone : is_run p [c]).
    { split; [done|]. by repeat constructor. }
    destruct (starts_run p s); [|by constructor].
    destruct IH as [|word words [Hne Hchars] Hwords]; [by constructor|].
    constructor; [|done]. split; [done|]. by constructor.
Qed.

Lemma runs_of_run (w : list N) : is_run p w → runs p w = [w].
Proof.
  induction w as [|c w IH]; intros [Hne Hchars]; [done|].
  apply Forall_cons in Hchars as [Hc Hchars].
  rewrite runs_keep by done.
  destruct w as [|d w]; [done|].
  rewrite IH by (split; [done|done]).
  apply Forall_cons in Hchars as [Hd _].
  simpl. by rewrite Hd.
Qed.

Lemma runs_of_runs (words : list (list N)) :
  Forall (is_run p) words → flat_map (runs p) words = words.
Proof.
  induction 1 as [|word words Hword _ IH]; [done|].
  simpl. by rewrite runs_of_run, IH.
Qed.

Lemma runs_blank (s : list N) :
  runs p s = [] ↔ Forall (λ c, p c = true) s.
Proof.
  induction s as [|c s IH]; [done|].
  destruct (p c) eqn:Hc.
  - rewrite runs_skip, IH by done. split.
    + by constructor.
    + by intros [_ ?]%Forall_cons.
  - split.
    + rewrite runs_keep by done.
      destruct (starts_run p s); [by destruct (runs p s)|done].
    + intros [? _]%Forall_cons. congruence.
Qed.

End Runs.

Section Replace.
Import UStr.

Lemma runs_ext (p q : N → bool) (s : list N) :
  (∀ c, p c = q c) → runs p s = runs q s.
Proof.
  intros Hpq. induction s as [|c s IH]; [done|]. simpl.
  rewrite <- Hpq, IH. destruct s as [|d s]; [done|]. by rewrite <- Hpq.
Qed.

Lemma split_nonempty (sep : N) (s : list N) : split sep s ≠ [].
Proof.
  destruct s as [|c s]; simpl; [done|].
  destruct (c =? sep)%N; [done|]. by destruct (split sep s).
Qed.

(** Joining the parts of a split with the separator gives the text back. *)
Lemma join_split (sep : N) (s : list N) : join [sep] (split sep s) = s.
Proof.
  induction s as [|c s IH]; [done|]. simpl split.
  pose proof (split_nonempty sep s) as Hne.
  destruct (N.eqb_spec c sep) as [->|Hc].
  - destruct (split sep s) as [|part parts]; [done|].
    change (join [sep] ([] :: part :: parts))
      with (sep :: join [sep] (part :: parts)).
    by rewrite IH.
  - destruct (split sep s) as [|part parts]; [done|].
    rewrite <- IH. by destruct parts.
Qed.

(** Replacing a character by a blank makes it end runs. *)
Lemma runs_replace (p : N → bool) (old : N) (s : list N) :
  p 0x20%N = true →
  runs p (replace old [0x20%N] s) = runs (λ c, p c || (c =? old)%N) s.
Proof.
  intros Hblank. set (q := λ c, p c || (c =? old)%N).
  induction s as [|d s IH]; [done|]. simpl replace.
  destruct (N.eqb_spec d old) as [->|Hd].
  - change ([32%N] ++ replace old [32%N] s) with (32%N :: replace old [32%N] s).
    rewrite (runs_skip p 32%N) by done.
    rewrite (runs_skip q old) by (unfold q; rewrite N.eqb_refl; apply orb_true_r).
    done.
  - assert (Hsame : q d = p d).
    { unfold q. destruct (N.eqb_spec d old); [done|apply orb_false_r]. }
    destruct (p d) eqn:Hsp.
    + rewrite (runs_skip p d) by done. by rewrite (runs_skip q d) by done.
    + rewrite (runs_keep p d), (runs_keep q d) by done.
      rewrite IH.
      replace (starts_run p (replace old [32%N] s)) with (starts_run q s); [done|].
      destruct s as [|e s]; [done|]. simpl. unfold q.
      destruct (N.eqb_spec e old) as [->|He]; simpl.
      * by rewrite Hblank, orb_true_r.
      * by rewrite orb_false_r.
Qed.

Lemma runs_replace_all (patterns : list N) (p : N → bool) (s : list N) :
  p 0x20%N = true →
  runs p (foldl (λ cleaned pattern, replace pattern [0x20%N] cleaned) s patterns)
  = runs (λ c, p c || existsb (N.eqb c) patterns) s.
Proof.
  revert p s. induction patterns as [|pattern patterns IH]; intros p s Hblank.
  - simpl. apply runs_ext. intros c. by rewrite orb_false_r.
  - simpl foldl. rewrite IH by done.
    rewrite runs_replace by (by rewrite Hblank).
    apply runs_ext. intros c. simpl.
    destruct (p c), (existsb (N.eqb c) patterns), (c =? pattern)%N; done.
Qed.

End Replace.

Section CleanText.
Import UStr.

Lemma blank_whitespace (c : N) : isspace c = true → blank c = true.
Proof. unfold blank. by intros ->. Qed.

Lemma blank_spec (c : N) :
  blank c = true ↔ isspace c = true ∨ c ∈ noise_patterns.
Proof.
  unfold blank. rewrite orb_true_iff, existsb_exists.
  split; intros [Hc|Hc]; try by left.
  - right. destruct Hc as (x & Hin & ->%N.eqb_eq). by apply list_elem_of_In.
  - right. exists c. split; [by apply list_elem_of_In|apply N.eqb_refl].
Qed.

Lemma blank_word (w : list N) : is_run blank w → is_word w.
Proof.
  intros [Hne Hchars]. split; [done|].
  eapply Forall_impl; [exact Hchars|]. intros c Hc. simpl in Hc.
  unfold blank in Hc. by apply orb_false_iff in Hc as [? _].
Qed.

(** The text with its noise patterns replaced has the words that whitespace
    and noise part in the text. *)
Lemma replace_noise_words (text : list N) :
  split_whitespace (foldl (λ cleaned pattern, replace pattern [0x20%N] cleaned)
                      text noise_patterns)
  = runs blank text.
Proof. unfold split_whitespace. by rewrite runs_replace_all. Qed.

(** What [clean_text] computes, read as words. *)
Lemma clean_text_words (text : list N) :
  clean_text text = join [0x20%N] (runs blank text).
Proof.
  unfold clean_text. destruct (nonempty text) eqn:Hne; [|by destruct text].
  f_equal. rewrite replace_noise_words.
  rewrite (runs_join blank 32%N) by done.
  rewrite (runs_clean_lines blank blank_whitespace).
  rewrite <- (runs_join blank 10%N) by done.
  by rewrite join_split.
Qed.

Lemma join_words_nonempty (word : list N) (words : list (list N)) :
  word ≠ [] → join [0x20%N] (word :: words) ≠ [].
Proof. intros Hword. destruct words; simpl; by destruct word. Qed.

(** X10: [clean_text] returns words joined by single blanks: the maximal
    runs of characters that are not whitespace in the text with its noise
    patterns replaced by blanks. Line breaks and the trimming of lines
    leave no other trace. *)
Theorem clean_text_joins_words (text : list N) :
  ∃ words,
    clean_text text = join [0x20%N] words
    ∧ words = split_whitespace
                (foldl (λ cleaned pattern, replace pattern [0x20%N] cleaned)
                   text noise_patterns)
    ∧ Forall is_word words
    ∧ Forall (Forall (λ c, c ∉ noise_patterns)) words.
Proof.
  exists (runs blank text). split; [apply clean_text_words|].
  split; [by rewrite replace_noise_words|].
  pose proof (runs_are_runs blank text) as Hruns.
  split.
  - eapply Forall_impl; [exact Hruns|]. apply blank_word.
  - eapply Forall_impl; [exact Hruns|]. intros word [_ Hchars].
    eapply Forall_impl; [exact Hchars|]. intros c Hc Hin. simpl in Hc.
    assert (blank c = true) by (apply blank_spec; by right). congruence.
Qed.

(** X11: cleaning a cleaned text changes nothing. *)
Theorem clean_text_idempotent (text : list N) :
  clean_text (clean_text text) = clean_text text.
Proof.
  rewrite (clean_text_words (clean_text text)), (clean_text_words text).
  rewrite (runs_join blank 32%N) by done.
  by rewrite runs_of_runs by apply runs_are_runs.
Qed.

(** X12: [clean_text] returns the empty text exactly for a text made of
    whitespace and noise patterns only. *)
Theorem clean_text_empty_iff_blank (text : list N) :
  clean_text text = []
  ↔ Forall (λ c, isspace c = true ∨ c ∈ noise_patterns) text.
Proof.
  rewrite <- (Forall_iff _ _ _ blank_spec), <- runs_blank, clean_text_words.
  pose proof (runs_are_runs blank text) as Hwords.
  destruct (runs blank text) as [|word words]; [done|].
  apply Forall_cons in Hwords as [[Hne _] _].
  split; [|done]. intros Hempty. by apply join_words_nonempty in Hempty.
Qed.

End CleanText.

Lemma append_nil_l (s : string) : EmptyString +:+ s = s.
Proof. reflexivity. Qed.

(** ** File names *)

Example raw_document_filename_sample :
  raw_document_filename 7 (sample_doc "https://api.nasa.gov/planetary/apod?date=x" "")
  = "007_api.nasa.gov_planetary_apod_date=x.json".
Proof. vm_compute. reflexivity. Qed.

Example processed_document_filename_sample :
  processed_document_filename 12 (ProcessedDocument.Build "" [] 0 0 [])
  = "processed_012_d41d8cd98f00b204.json".
Proof. vm_compute. reflexivity. Qed.

Section Decimal.
Import Str.

Lemma chars_append (s1 s2 : string) :
  String.list_ascii_of_string (s1 +:+ s2)
  = String.list_ascii_of_string s1 ++ String.list_ascii_of_string s2.
Proof.
  induction s1 as [|c s1 IH]; [done|]. rewrite append_cons. simpl. by rewrite IH.
Qed.

Lemma string_of_uint_digits (d : Decimal.uint) :
  Forall (λ c, is_digit c = true)
    (String.list_ascii_of_string (NilEmpty.string_of_uint d)).
Proof. induction d; simpl; by constructor. Qed.

Lemma of_nat_digits (n : nat) :
  Forall (λ c, is_digit c = true) (String.list_ascii_of_string (of_nat n)).
Proof.
  unfold of_nat, NilZero.string_of_uint.
  destruct (Nat.to_uint n) eqn:Hd; try (rewrite <- Hd; apply string_of_uint_digits).
  simpl. by repeat constructor.
Qed.

Lemma of_nat_nonempty (n : nat) : of_nat n ≠ EmptyString.
Proof.
  unfold of_nat, NilZero.string_of_uint. by destruct (Nat.to_uint n).
Qed.

Lemma zfill_digits (width n : nat) :
  Forall (λ c, is_digit c = true) (String.list_ascii_of_string (zfill width n)).
Proof.
  unfold zfill. change String.append with (λ a b, a +:+ b). cbv beta.
  rewrite chars_append, String.list_ascii_of_string_of_list_ascii.
  apply Forall_app. split; [|apply of_nat_digits].
  by apply Forall_replicate.
Qed.

(** The decimal text of a number reads back as the number. *)
Lemma parse_nat_of_nat (n : nat) : parse_nat (of_nat n) = Some n.
Proof.
  unfold parse_nat, of_nat.
  destruct (Nat.to_uint n) eqn:Hd;
    try (rewrite <- Hd, NilZero.usu by (rewrite Hd; discriminate);
         simpl; by rewrite DecimalNat.Unsigned.of_to).
  simpl. f_equal. rewrite <- (DecimalNat.Unsigned.of_to n), Hd. reflexivity.
Qed.

Lemma parse_nat_leading_zero (s : string) :
  s ≠ EmptyString → parse_nat (String "0" s) = parse_nat s.
Proof.
  intros Hs. unfold parse_nat. destruct s as [|c s]; [done|].
  unfold NilZero.uint_of_string.
  change (NilEmpty.uint_of_string (String "0" (String c s)))
    with (uint_of_char "0" (NilEmpty.uint_of_string (String c s))).
  by destruct (NilEmpty.uint_of_string (String c s)).
Qed.

(** So does a zero-padded one: the position can be read back from a name. *)
Lemma parse_nat_zfill (width n : nat) : parse_nat (zfill width n) = Some n.
Proof.
  unfold zfill. change String.append with (λ a b, a +:+ b). cbv beta.
  induction (width - String.length (of_nat n))%nat as [|k IH]; simpl.
  - apply parse_nat_of_nat.
  - rewrite append_cons, parse_nat_leading_zero; [done|].
    destruct (String.string_of_list_ascii (replicate k "0"%char)); [|done].
    apply of_nat_nonempty.
Qed.

(** Two texts that begin with digits and an underscore begin with the same
    digits when they are equal. *)
Lemma digits_prefix_inj (a b rest rest' : string) :
  Forall (λ c, is_digit c = true) (String.list_ascii_of_string a) →
  Forall (λ c, is_digit c = true) (String.list_ascii_of_string b) →
  a +:+ String "_" rest = b +:+ String "_" rest' → a = b.
Proof.
  revert b. induction a as [|x a IH]; intros [|y b] Ha Hb; simpl in Ha, Hb.
  - done.
  - rewrite append_nil_l, append_cons. intros [= <- _].
    by apply Forall_cons in Hb as [? _].
  - rewrite append_nil_l, append_cons. intros [= -> _].
    by apply Forall_cons in Ha as [? _].
  - rewrite !append_cons. intros [= -> Heq].
    apply Forall_cons in Ha as [_ Ha]. apply Forall_cons in Hb as [_ Hb].
    f_equal. by apply IH.
Qed.

Lemma zfill_prefix_inj (width i j : nat) (rest rest' : string) :
  zfill width i +:+ String "_" rest = zfill width j +:+ String "_" rest' → i = j.
Proof.
  intros Heq%digits_prefix_inj; [|apply zfill_digits..].
  apply (f_equal parse_nat) in Heq. rewrite !parse_nat_zfill in Heq. congruence.
Qed.

End Decimal.

Section Saving.
Import Str StrOps.

Lemma save_raw_loop_pattern (dump : RawDocument.t → string)
  (items : list (nat * RawDocument.t)) (saved_paths : list string)
  (directory : gmap string string) :
  save_raw_loop dump items saved_paths directory
  = save_loop raw_document_filename dump items saved_paths directory.
Proof.
  revert saved_paths directory.
  induction items as [|[i doc] items IH]; intros; simpl; [done|apply IH].
Qed.

Lemma save_processed_loop_pattern (dump : ProcessedDocument.t → string)
  (items : list (nat * ProcessedDocument.t)) (saved_paths : list string)
  (directory : gmap string string) :
  save_processed_loop dump items saved_paths directory
  = save_loop processed_document_filename dump items saved_paths directory.
Proof.
  revert saved_paths directory.
  induction items as [|[i doc] items IH]; intros; simpl; [done|apply IH].
Qed.

(** The loop returns the names in order, leaves other files alone and, when
    the names differ from each other, leaves each item's text under its
    name. *)
Lemma save_loop_spec {A : Type} (name : nat → A → string) (dump : A → string)
  (items : list (nat * A)) (saved_paths : list string)
  (directory : gmap string string) :
  let names := map (λ item : nat * A, name item.1 item.2) items in
  let result := save_loop name dump items saved_paths directory in
  result.1 = saved_paths ++ names
  ∧ (∀ path, path ∉ names → result.2 !! path = directory !! path)
  ∧ (NoDup names →
     ∀ item, item ∈ items → result.2 !! name item.1 item.2 = Some (dump item.2)).
Proof.
  revert saved_paths directory.
  induction items as [|[i x] items IH]; intros saved_paths directory; simpl.
  - rewrite app_nil_r. split; [done|]. split; [done|].
    by intros _ item ?%elem_of_nil.
  - destruct (IH (saved_paths ++ [name i x]) (<[name i x := dump x]> directory))
      as (Hpaths & Hother & Hitems).
    split; [by rewrite Hpaths, <- app_assoc|]. split.
    + intros path [Hne Hnot]%not_elem_of_cons.
      by rewrite Hother, lookup_insert_ne.
    + intros [Hfresh Hnodup]%NoDup_cons item [->|Hin]%elem_of_cons.
      * simpl. by rewrite Hother, lookup_insert_eq.
      * by apply Hitems.
Qed.

(** Names that determine their position differ along an enumeration. *)
Lemma enumerate_names_nodup {A : Type} (name : nat → A → string)
  (start : nat) (xs : list A) :
  (∀ i j x y, name i x = name j y → i = j) →
  NoDup (map (λ item : nat * A, name item.1 item.2) (enumerate_from start xs)).
Proof.
  intros Hinj. revert start.
  induction xs as [|x xs IH]; intros start; simpl; [constructor|].
  constructor; [|apply IH].
  intros ([j y] & Heq & Hin)%list_elem_of_fmap. simpl in Heq.
  apply Hinj in Heq as <-.
  assert (Hge : ∀ (n : nat) (l : list A) (item : nat * A),
            item ∈ enumerate_from n l → (n ≤ item.1)%nat).
  { clear. intros n l. revert n. induction l as [|z l IHl]; intros n item; simpl.
    - by intros ?%elem_of_nil.
    - intros [->|Hin]%elem_of_cons; [done|]. apply IHl in Hin. lia. }
  apply Hge in Hin. simpl in Hin. lia.
Qed.

Lemma enumerate_from_lookup_item {A : Type} (start : nat) (xs : list A)
  (k : nat) (x : A) :
  xs !! k = Some x → (start + k, x)%nat ∈ enumerate_from start xs.
Proof.
  revert start k. induction xs as [|y xs IH]; intros start [|k]; simpl; try done.
  - intros [= ->]. rewrite Nat.add_0_r. by left.
  - intros Hx. right. replace (start + S k)%nat with (S start + k)%nat by lia.
    by apply IH.
Qed.

Lemma raw_document_filename_inj (i j : nat) (doc doc' : RawDocument.t) :
  raw_document_filename i doc = raw_document_filename j doc' → i = j.
Proof. unfold raw_document_filename. apply zfill_prefix_inj. Qed.

Lemma processed_document_filename_inj (i j : nat) (pd pd' : ProcessedDocument.t) :
  processed_document_filename i pd = processed_document_filename j pd' → i = j.
Proof.
  unfold processed_document_filename. intros Heq.
  apply (inj (String.append "processed_")) in Heq.
  by apply zfill_prefix_inj in Heq.
Qed.

End Saving.

Section SavedFiles.
Import Str StrOps.

(** Saving the same items again under names that differ from each other
    leaves the directory as the first saving left it. *)
Lemma save_loop_again {A : Type} (name : nat → A → string) (dump : A → string)
  (items : list (nat * A)) (saved_paths saved_paths' : list string)
  (directory : gmap string string) :
  NoDup (map (λ item : nat * A, name item.1 item.2) items) →
  (save_loop name dump items saved_paths'
     (save_loop name dump items saved_paths directory).2).2
  = (save_loop name dump items saved_paths directory).2.
Proof.
  intros Hnodup.
  destruct (save_loop_spec name dump items saved_paths directory)
    as (_ & _ & Hfirst).
  destruct (save_loop_spec name dump items saved_paths'
              (save_loop name dump items saved_paths directory).2)
    as (_ & Hother & Hsecond).
  apply map_eq. intros path.
  destruct (decide (path ∈ map (λ item : nat * A, name item.1 item.2) items))
    as [Hin|Hnot]; [|by apply Hother].
  apply list_elem_of_fmap in Hin as (item & -> & Hin).
  by rewrite Hsecond, Hfirst.
Qed.

Lemma chars_replace (old new : ascii) (s : string) :
  String.list_ascii_of_string (replace old (String new EmptyString) s)
  = map (λ c, if Ascii.eqb c old then new else c) (String.list_ascii_of_string s).
Proof.
  induction s as [|c s IH]; [done|]. simpl.
  destruct (Ascii.eqb c old); [rewrite append_cons, append_nil_l|]; simpl;
    by rewrite IH.
Qed.

(** The name of a raw document's file holds no "/" and no "?". *)
Lemma raw_document_filename_chars (i : nat) (doc : RawDocument.t) :
  Forall (λ c, c ≠ "/"%char ∧ c ≠ "?"%char)
    (String.list_ascii_of_string (raw_document_filename i doc)).
Proof.
  unfold raw_document_filename. rewrite !chars_append.
  apply Forall_app. split.
  { eapply Forall_impl; [apply zfill_digits|].
    intros c Hc. split; intros ->; done. }
  apply Forall_app. split; [simpl; by repeat constructor|].
  apply Forall_app. split; [|simpl; by repeat constructor].
  set (name := replace "?" "_" (replace "/" "_" _)).
  assert (Hname : Forall (λ c, c ≠ "/"%char ∧ c ≠ "?"%char)
                    (String.list_ascii_of_string name)).
  { unfold name. rewrite !chars_replace.
    apply Forall_forall. intros c Hc.
    apply list_elem_of_fmap in Hc as (d & -> & Hd).
    apply list_elem_of_fmap in Hd as (e & -> & _).
    destruct (Ascii.eqb_spec e "/") as [->|He]; [done|].
    destruct (Ascii.eqb_spec e "?") as [->|He']; done. }
  destruct (100 <? len name); [|done].
  rewrite chars_slice_to by lia. by apply Forall_take.
Qed.

(** X13: [save_raw_documents] returns one name for each document, in
    order; the names differ from each other and hold no "/" and no "?", so
    each names a file of the directory itself; afterwards each document's
    text is in the file of its name and every other file is as it was;
    saving the same documents again changes nothing. *)
Theorem save_raw_documents_files (dump : RawDocument.t → string)
  (documents : list RawDocument.t) (directory : gmap string string) :
  let result := save_raw_documents dump documents directory in
  length result.1 = length documents
  ∧ NoDup result.1
  ∧ Forall (λ path, Forall (λ c, c ≠ "/"%char ∧ c ≠ "?"%char)
                      (String.list_ascii_of_string path)) result.1
  ∧ (∀ k doc, documents !! k = Some doc →
       result.1 !! k = Some (raw_document_filename k doc)
       ∧ result.2 !! raw_document_filename k doc = Some (dump doc))
  ∧ (∀ path, path ∉ result.1 → result.2 !! path = directory !! path)
  ∧ (save_raw_documents dump documents result.2).2 = result.2.
Proof.
  unfold save_raw_documents. rewrite !save_raw_loop_pattern.
  pose proof (enumerate_names_nodup raw_document_filename 0 documents
                raw_document_filename_inj) as Hnodup.
  destruct (save_loop_spec raw_document_filename dump (enumerate documents) []
              directory) as (Hpaths & Hother & Hitems).
  simpl. rewrite Hpaths. simpl.
  split; [|split; [done|split; [|split; [|split]]]].
  - rewrite length_map. unfold enumerate. clear.
    generalize 0%nat. induction documents as [|d ds IH]; intros n; simpl; [done|].
    by rewrite IH.
  - apply Forall_forall. intros path ([i doc] & -> & _)%list_elem_of_fmap.
    apply raw_document_filename_chars.
  - intros k doc Hk. split.
    + rewrite list_lookup_fmap. unfold enumerate. clear -Hk.
      change k with (0 + k)%nat at 2. generalize 0%nat.
      revert k Hk. induction documents as [|d ds IH]; intros [|k] Hk n; simpl in *;
        try done.
      * injection Hk as ->. by rewrite Nat.add_0_r.
      * rewrite (IH k Hk (S n)). do 2 f_equal. lia.
    + apply (Hitems Hnodup (k, doc)).
      by apply (enumerate_from_lookup_item 0 documents k doc).
  - intros path Hpath. by apply Hother.
  - by apply save_loop_again.
Qed.

(** X14: [save_processed_documents] returns one name for each processed
    document, in order; the names differ from each other; afterwards each
    document's text is in the file of its name and every other file is as it
    was; saving the same documents again changes nothing. *)
Theorem save_processed_documents_files (dump : ProcessedDocument.t → string)
  (processed_docs : list ProcessedDocument.t) (directory : gmap string string) :
  let result := save_processed_documents dump processed_docs directory in
  length result.1 = length processed_docs
  ∧ NoDup result.1
  ∧ (∀ k doc, processed_docs !! k = Some doc →
       result.1 !! k = Some (processed_document_filename k doc)
       ∧ result.2 !! processed_document_filename k doc = Some (dump doc))
  ∧ (∀ path, path ∉ result.1 → result.2 !! path = directory !! path)
  ∧ (save_processed_documents dump processed_docs result.2).2 = result.2.
Proof.
  unfold save_processed_documents. rewrite !save_processed_loop_pattern.
  pose proof (enumerate_names_nodup processed_document_filename 0 processed_docs
                processed_document_filename_inj) as Hnodup.
  destruct (save_loop_spec processed_document_filename dump
              (enumerate processed_docs) [] directory) as (Hpaths & Hother & Hitems).
  simpl. rewrite Hpaths. simpl.
  split; [|split; [done|split; [|split]]].
  - rewrite length_map. unfold enumerate. clear.
    generalize 0%nat. induction processed_docs as [|d ds IH]; intros n; simpl; [done|].
    by rewrite IH.
  - intros k doc Hk. split.
    + rewrite list_lookup_fmap. unfold enumerate. clear -Hk.
      change k with (0 + k)%nat at 2. generalize 0%nat.
      revert k Hk. induction processed_docs as [|d ds IH]; intros [|k] Hk n;
        simpl in *; try done.
      * injection Hk as ->. by rewrite Nat.add_0_r.
      * rewrite (IH k Hk (S n)). do 2 f_equal. lia.
    + apply (Hitems Hnodup (k, doc)).
      by apply (enumerate_from_lookup_item 0 processed_docs k doc).
  - intros path Hpath. by apply Hother.
  - by apply save_loop_again.
Qed.

End SavedFiles.

(** ** The embedding rounds of the script *)

Section EmbeddingRounds.

Lemma list_slice_take_drop {A : Type} (l : list A) (a b : Z) :
  0 ≤ a ≤ b →
  list_slice l a b = take (Z.to_nat (b - a)) (drop (Z.to_nat a) l).
Proof.
  intros Hab. unfold list_slice, Str.clamp.
  destruct (a <? 0) eqn:Ha; [lia|]. destruct (b <? 0) eqn:Hb; [lia|].
  destruct (Z.le_gt_cases a (Z.of_nat (length l))) as [Hal|Hal].
  - rewrite (Z.min_l a) by lia.
    destruct (Z.le_gt_cases b (Z.of_nat (length l))) as [Hbl|Hbl].
    + by rewrite (Z.min_l b) by lia.
    + rewrite (Z.min_r b) by lia.
      rewrite !take_ge; [done| |]; rewrite length_drop; lia.
  - rewrite (Z.min_r a), (Z.min_r b) by lia.
    rewrite !drop_ge by lia. by rewrite !take_nil.
Qed.

Lemma assign_embeddings_length (batch : list APIDocument.t)
  (embeddings : list (list float)) :
  length (assign_embeddings batch embeddings) = length batch.
Proof.
  revert embeddings. induction batch as [|chunk batch IH]; intros [|e es]; simpl;
    by rewrite ?IH.
Qed.

Lemma assign_embeddings_lookup (batch : list APIDocument.t)
  (embeddings : list (list float)) (j : nat) :
  assign_embeddings batch embeddings !! j
  = (λ chunk, match embeddings !! j with
              | Some e => set_embedding chunk e
              | None => chunk
              end) <$> batch !! j.
Proof.
  revert embeddings j. induction batch as [|chunk batch IH]; intros [|e es] j; simpl.
  - done.
  - done.
  - by destruct (_ !! j).
  - destruct j as [|j]; simpl; [done|]. apply IH.
Qed.

Lemma range_step_rounds (n : nat) :
  range_step 0 (Z.of_nat n) script_batch_size
  = map (λ m, Z.of_nat m * script_batch_size)
        (seq 0 (Z.to_nat ((Z.of_nat n + 31) / 32))).
Proof.
  unfold range_step, script_batch_size.
  replace (Z.of_nat n - 0 + 32 - 1) with (Z.of_nat n + 31) by lia.
  apply map_ext. intros m. lia.
Qed.

Lemma batch_start_of_round (m k : nat) :
  (32 * m ≤ k < 32 * m + 32)%nat →
  batch_start k = Z.of_nat m * script_batch_size.
Proof.
  intros Hk. unfold batch_start, script_batch_size. f_equal.
  symmetry. apply (Z.div_unique _ _ _ (Z.of_nat k - 32 * Z.of_nat m)); lia.
Qed.

Variable embed_batch : Z → list string → list (list float).

Lemma embedded_content (all_chunks : list APIDocument.t) (k : nat)
  (chunk : APIDocument.t) :
  APIDocument.content (embedded embed_batch all_chunks k chunk)
  = APIDocument.content chunk.
Proof. unfold embedded. by destruct (embedding_for _ _ _). Qed.

(** After [m] rounds the chunks before position [32 * m] have been given
    their vectors and the others are as they were. *)
Lemma script_embed_rounds (all_chunks : list APIDocument.t) (m : nat) :
  (32 * m < length all_chunks + 32)%nat →
  let state :=
    foldl (script_embed_round embed_batch) all_chunks
          (map (λ m, Z.of_nat m * script_batch_size) (seq 0 m)) in
  length state = length all_chunks
  ∧ ∀ k chunk,
      all_chunks !! k = Some chunk →
      state !! k
      = Some (if (k <? 32 * m)%nat then embedded embed_batch all_chunks k chunk else chunk).
Proof.
  induction m as [|m IH]; intros Hm state.
  - split; [done|]. intros k chunk Hk. by destruct (Nat.ltb_spec k (32 * 0)); [lia|].
  - destruct IH as [Hlen Hstate]; [lia|].
    unfold state. rewrite seq_S, map_app, foldl_app.
    set (prev := foldl _ _ (map _ (seq 0 m))) in *.
    cbn [map foldl Nat.add].
    assert (Hcontent : map APIDocument.content prev = map APIDocument.content all_chunks).
    { apply list_eq. intros k.
      change (map APIDocument.content prev) with (APIDocument.content <$> prev).
      change (map APIDocument.content all_chunks)
        with (APIDocument.content <$> all_chunks).
      rewrite !list_lookup_fmap.
      destruct (all_chunks !! k) as [chunk|] eqn:Hk.
      - rewrite (Hstate k chunk Hk).
        destruct (k <? 32 * m)%nat; cbn [fmap option_fmap option_map]; f_equal.
        apply embedded_content.
      - apply lookup_ge_None in Hk.
        rewrite (proj2 (lookup_ge_None prev k)); [done|lia]. }
    unfold script_embed_round, script_batch_size.
    set (i := Z.of_nat m * 32).
    assert (Hi : Z.to_nat i = (32 * m)%nat) by (unfold i; lia).
    rewrite (list_slice_take_drop prev i (i + 32)) by (unfold i; lia).
    replace (Z.to_nat (i + 32 - i)) with 32%nat by lia.
    rewrite Hi.
    set (batch := take 32 (drop (32 * m) prev)).
    assert (Htexts : map APIDocument.content batch
                     = map APIDocument.content
                         (list_slice all_chunks i (i + script_batch_size))).
    { unfold script_batch_size.
      rewrite (list_slice_take_drop all_chunks i (i + 32)) by (unfold i; lia).
      replace (Z.to_nat (i + 32 - i)) with 32%nat by lia. rewrite Hi.
      unfold batch.
      change (map APIDocument.content ?l) with (APIDocument.content <$> l).
      rewrite !fmap_take, !fmap_drop.
      change (APIDocument.content <$> ?l) with (map APIDocument.content l).
      by rewrite Hcontent. }
    assert (Hbatch : length batch = Nat.min 32 (length all_chunks - 32 * m)).
    { unfold batch. rewrite length_take, length_drop. lia. }
    split.
    + rewrite !length_app, length_take, assign_embeddings_length, length_drop. lia.
    + intros k chunk Hk.
      pose proof (lookup_lt_Some _ _ _ Hk) as Hklt.
      destruct (Nat.lt_ge_cases k (32 * m)) as [Hlo|Hlo].
      * rewrite lookup_app_l by (rewrite length_take; lia).
        rewrite lookup_take_lt by lia. rewrite (Hstate k chunk Hk).
        destruct (Nat.ltb_spec k (32 * m)); [|lia].
        by destruct (Nat.ltb_spec k (32 * S m)); [|lia].
      * rewrite lookup_app_r by (rewrite length_take; lia).
        rewrite length_take, (Nat.min_l (32 * m) (length prev)) by lia.
        destruct (Nat.lt_ge_cases k (32 * m + 32)) as [Hin|Hout].
        -- rewrite lookup_app_l by (rewrite assign_embeddings_length; lia).
           rewrite assign_embeddings_lookup, Htexts.
           unfold batch. rewrite lookup_take_lt by lia. rewrite lookup_drop.
           replace (32 * m + (k - 32 * m))%nat with k by lia.
           rewrite (Hstate k chunk Hk).
           destruct (Nat.ltb_spec k (32 * m)); [lia|].
           destruct (Nat.ltb_spec k (32 * S m)); [|lia].
           cbn [fmap option_fmap option_map]. f_equal. unfold embedded, embedding_for.
           rewrite (batch_start_of_round m k) by lia.
           change (Z.of_nat m * script_batch_size) with i. by rewrite Hi.
        -- rewrite lookup_app_r by (rewrite assign_embeddings_length; lia).
           rewrite assign_embeddings_length, lookup_drop.
           replace (32 * m + length batch + (k - 32 * m - length batch))%nat
             with k by lia.
           rewrite (Hstate k chunk Hk).
           destruct (Nat.ltb_spec k (32 * m)); [lia|].
           by destruct (Nat.ltb_spec k (32 * S m)); [lia|].
Qed.

(** The number of rounds reaches the end of the list. *)
Lemma script_rounds_bounds (n : nat) :
  let rounds := Z.to_nat ((Z.of_nat n + 31) / 32) in
  (n ≤ 32 * rounds < n + 32)%nat.
Proof.
  intros rounds. unfold rounds.
  pose proof (Z.div_mod (Z.of_nat n + 31) 32 ltac:(lia)) as Hdiv.
  pose proof (Z.mod_pos_bound (Z.of_nat n + 31) 32 ltac:(lia)) as Hmod.
  assert (0 ≤ (Z.of_nat n + 31) / 32) by (apply Z.div_pos; lia).
  lia.
Qed.

Lemma script_embed_chunks_lookup (all_chunks : list APIDocument.t) :
  length (script_embed_chunks embed_batch all_chunks) = length all_chunks
  ∧ ∀ k chunk,
      all_chunks !! k = Some chunk →
      script_embed_chunks embed_batch all_chunks !! k
      = Some (embedded embed_batch all_chunks k chunk).
Proof.
  unfold script_embed_chunks. rewrite range_step_rounds.
  pose proof (script_rounds_bounds (length all_chunks)) as Hrounds. simpl in Hrounds.
  destruct (script_embed_rounds all_chunks _ (proj2 Hrounds)) as [Hlen Hstate].
  split; [done|].
  intros k chunk Hk. rewrite (Hstate k chunk Hk).
  pose proof (lookup_lt_Some _ _ _ Hk).
  by destruct (Nat.ltb_spec k (32 * Z.to_nat ((Z.of_nat (length all_chunks) + 31) / 32))); [|lia].
Qed.

(** X15: whatever the embedding service returns, the rounds of the script
    keep the number and the order of the chunks and change nothing but
    embeddings: the chunk at position [k] is given the vector at position
    [k mod 32] of the answer to the contents of positions
    [32 * (k / 32) .. 32 * (k / 32) + 31], the service is asked for at most
    32 texts at a time, and a chunk for which the answer has no vector keeps
    the embedding it had. *)
Theorem script_embed_chunks_assigns (all_chunks : list APIDocument.t) :
  let embedded_chunks := script_embed_chunks embed_batch all_chunks in
  length embedded_chunks = length all_chunks
  ∧ (∀ k chunk,
       all_chunks !! k = Some chunk →
       embedded_chunks !! k = Some (embedded embed_batch all_chunks k chunk))
  ∧ (∀ k, (length (list_slice all_chunks (batch_start k)
                     (batch_start k + script_batch_size)) ≤ 32)%nat)
  ∧ map APIDocument.id embedded_chunks = map APIDocument.id all_chunks
  ∧ map APIDocument.content embedded_chunks = map APIDocument.content all_chunks
  ∧ map APIDocument.metadata embedded_chunks = map APIDocument.metadata all_chunks.
Proof.
  intros embedded_chunks.
  destruct (script_embed_chunks_lookup all_chunks) as [Hlen Hlookup].
  assert (Hfield : ∀ {B : Type} (field : APIDocument.t → B),
             (∀ chunk e, field (set_embedding chunk e) = field chunk) →
             map field embedded_chunks = map field all_chunks).
  { intros B field Hset. apply list_eq. intros k.
    change (map field ?l) with (field <$> l). rewrite !list_lookup_fmap.
    destruct (all_chunks !! k) as [chunk|] eqn:Hk.
    - unfold embedded_chunks. rewrite (Hlookup k chunk Hk). simpl. f_equal.
      unfold embedded. by destruct (embedding_for _ _ _).
    - apply lookup_ge_None in Hk.
      unfold embedded_chunks.
      rewrite (proj2 (lookup_ge_None _ k)); [done|lia]. }
  split; [done|]. split; [exact Hlookup|]. split; [|by repeat split; apply Hfield].
  intros k. unfold batch_start, script_batch_size.
  assert (0 ≤ Z.of_nat k / 32 * 32).
  { pose proof (Z.div_pos (Z.of_nat k) 32 ltac:(lia) ltac:(lia)). lia. }
  rewrite list_slice_take_drop by lia. rewrite length_take. lia.
Qed.

End EmbeddingRounds.

(** ** What the vector store is handed *)

Section VectorStore.
Import ChromaManager.

Lemma foldl_prepare (documents : list APIDocument.t) (ids : list string)
  (embeddings : list (list float)) (metadatas : list (gmap string pyval))
  (documents_text : list string) :
  foldl prepare (ids, embeddings, metadatas, documents_text) documents
  = (ids ++ map APIDocument.id documents,
     embeddings ++ omap stored_embedding documents,
     metadatas ++ map document_metadata documents,
     documents_text ++ map APIDocument.content documents).
Proof.
  revert ids embeddings metadatas documents_text.
  induction documents as [|doc documents IH]; intros; simpl.
  - by rewrite !app_nil_r.
  - rewrite IH, <- !app_assoc. simpl.
    unfold stored_embedding at 2, has_embedding.
    destruct (APIDocument.embedding doc) as [[|x e]|]; simpl;
      by rewrite <- ?app_assoc.
Qed.

Lemma add_documents_call (documents : list APIDocument.t) :
  add_documents documents
  = AddCall (map APIDocument.id documents)
      (match omap stored_embedding documents with
       | [] => None
       | es => Some es
       end)
      (map document_metadata documents) (map APIDocument.content documents).
Proof.
  unfold add_documents. rewrite foldl_prepare. simpl.
  by destruct (omap stored_embedding documents).
Qed.

Lemma omap_cons {A B : Type} (f : A → option B) (x : A) (l : list A) :
  omap f (x :: l) = match f x with Some y => y :: omap f l | None => omap f l end.
Proof. done. Qed.

Lemma has_embedding_stored (doc : APIDocument.t) :
  has_embedding doc = true → stored_embedding doc = APIDocument.embedding doc
                             ∧ is_Some (APIDocument.embedding doc).
Proof.
  unfold stored_embedding. intros Hdoc. rewrite Hdoc. split; [done|].
  unfold has_embedding in Hdoc. by destruct (APIDocument.embedding doc).
Qed.

Lemma no_embedding_stored (doc : APIDocument.t) :
  has_embedding doc = false → stored_embedding doc = None.
Proof. unfold stored_embedding. by intros ->. Qed.

Lemma stored_embeddings_length (documents : list APIDocument.t) :
  (length (omap stored_embedding documents) ≤ length documents)%nat
  ∧ (length (omap stored_embedding documents) = length documents
     ↔ Forall (λ doc, has_embedding doc = true) documents).
Proof.
  induction documents as [|doc documents [IHle IHeq]].
  - split; [done|]. split; [constructor|done].
  - rewrite omap_cons. destruct (has_embedding doc) eqn:Hdoc.
    + destruct (has_embedding_stored doc Hdoc) as [-> [e ->]].
      cbn [length]. split; [lia|]. split.
      * intros Hlen. constructor; [done|]. apply IHeq. lia.
      * intros Hall. apply Forall_cons in Hall as [_ Hall]. f_equal. by apply IHeq.
    + rewrite (no_embedding_stored doc Hdoc). cbn [length].
      split; [lia|]. split; [lia|].
      intros Hall. apply Forall_cons in Hall as [Hall _]. congruence.
Qed.

Lemma stored_embeddings_none (documents : list APIDocument.t) :
  omap stored_embedding documents = []
  ↔ Forall (λ doc, has_embedding doc = false) documents.
Proof.
  induction documents as [|doc documents IH].
  - split; [constructor|done].
  - rewrite omap_cons. destruct (has_embedding doc) eqn:Hdoc.
    + destruct (has_embedding_stored doc Hdoc) as [-> [e ->]].
      split; [done|]. intros Hall. apply Forall_cons in Hall as [Hall _]. congruence.
    + rewrite (no_embedding_stored doc Hdoc), IH. split.
      * intros Hall. by constructor.
      * intros Hall. by apply Forall_cons in Hall as [_ Hall].
Qed.

Lemma stored_embeddings_all (documents : list APIDocument.t) :
  Forall (λ doc, has_embedding doc = true) documents →
  map Some (omap stored_embedding documents) = map APIDocument.embedding documents.
Proof.
  induction 1 as [|doc documents Hdoc _ IH]; [done|].
  rewrite omap_cons.
  destruct (has_embedding_stored doc Hdoc) as [-> [e He]]. rewrite He.
  cbn [map]. by rewrite IH, He.
Qed.

(** X16: [add_documents] hands the collection the ids, the contents and the
    metadata of all documents, in order, and the embeddings of the
    documents that have a non-empty one. It passes no embeddings exactly
    when no document has one. The embeddings it passes are never more than
    the ids, and as many exactly when every document has one, in which case
    they are the documents' embeddings in order; otherwise the list is
    shorter than the list of ids. *)
Theorem add_documents_arguments (documents : list APIDocument.t) :
  let call := add_documents documents in
  ids call = map APIDocument.id documents
  ∧ ChromaManager.documents call = map APIDocument.content documents
  ∧ metadatas call = map document_metadata documents
  ∧ (embeddings call = None
     ↔ Forall (λ doc, has_embedding doc = false) documents)
  ∧ ∀ es,
      embeddings call = Some es →
      es = omap stored_embedding documents
      ∧ (length es ≤ length (ids call))%nat
      ∧ (length es = length (ids call)
         ↔ Forall (λ doc, has_embedding doc = true) documents)
      ∧ (Forall (λ doc, has_embedding doc = true) documents →
         map Some es = map APIDocument.embedding documents).
Proof.
  intros call. unfold call. rewrite add_documents_call. simpl.
  repeat split; try done.
  - intros Hnone. apply stored_embeddings_none.
    by destruct (omap stored_embedding documents).
  - intros Hall. apply stored_embeddings_none in Hall. by rewrite Hall.
  - destruct (omap stored_embedding documents); congruence.
  - rewrite length_map.
    replace es with (omap stored_embedding documents)
      by (destruct (omap stored_embedding documents); congruence).
    apply stored_embeddings_length.
  - rewrite length_map.
    replace es with (omap stored_embedding documents)
      by (destruct (omap stored_embedding documents); congruence).
    apply stored_embeddings_length.
  - rewrite length_map.
    replace es with (omap stored_embedding documents)
      by (destruct (omap stored_embedding documents); congruence).
    apply stored_embeddings_length.
  - replace es with (omap stored_embedding documents)
      by (destruct (omap stored_embedding documents); congruence).
    apply stored_embeddings_all.
Qed.

(** The metadata of a document whose own metadata has the document type and
    neither a source url nor a creation time *)
Lemma document_metadata_inserts (doc : APIDocument.t) :
  APIDocument.metadata doc !! "document_type"
  = Some (PStr (DocumentType_value (APIDocument.document_type doc))) →
  APIDocument.metadata doc !! "source_url" = None →
  APIDocument.metadata doc !! "created_at" = None →
  APIDocument.api_endpoint doc = APIDocument.metadata doc !! "api_endpoint" →
  document_metadata doc
  = <["created_at" := PStr (isoformat (APIDocument.created_at doc))]>
      (<["source_url" := PStr (APIDocument.source_url doc)]>
         (<["api_endpoint" :=
              default (PStr "") (APIDocument.metadata doc !! "api_endpoint")]>
            (APIDocument.metadata doc))).
Proof.
  intros Htype Hsource Hcreated Hendpoint. apply map_eq. intros key.
  unfold document_metadata. rewrite lookup_union.
  destruct (decide (key = "created_at")) as [->|Hk1].
  { rewrite Hcreated. by simplify_map_eq. }
  destruct (decide (key = "source_url")) as [->|Hk2].
  { rewrite Hsource. by simplify_map_eq. }
  destruct (decide (key = "api_endpoint")) as [->|Hk3].
  { simplify_map_eq. unfold api_endpoint_or_empty. rewrite Hendpoint.
    destruct (APIDocument.metadata doc !! "api_endpoint") as [v|]; simpl; [|done].
    by destruct (truthy v). }
  destruct (decide (key = "document_type")) as [->|Hk4].
  { rewrite Htype. by simplify_map_eq. }
  simplify_map_eq. by destruct (APIDocument.metadata doc !! key).
Qed.

End VectorStore.

(** ** From the script's chunks to the store *)

Section StoredChunks.
Import ChromaManager.

Variable embed_batch : Z → list string → list (list float).

(** A service that answers every text has a vector for every position. *)
Lemma embedding_for_answered (all_chunks : list APIDocument.t) (k : nat) :
  (∀ i texts, length (embed_batch i texts) = length texts) →
  (k < length all_chunks)%nat →
  ∃ e, embedding_for embed_batch all_chunks k = Some e
       ∧ e ∈ embed_batch (batch_start k)
               (map APIDocument.content
                  (list_slice all_chunks (batch_start k)
                     (batch_start k + script_batch_size))).
Proof.
  intros Hlen Hk. unfold embedding_for.
  destruct (lookup_lt_is_Some_2
              (embed_batch (batch_start k)
                 (map APIDocument.content
                    (list_slice all_chunks (batch_start k)
                       (batch_start k + script_batch_size))))
              (k - Z.to_nat (batch_start k))) as [e He].
  - rewrite Hlen, length_map. unfold batch_start, script_batch_size.
    pose proof (Z.div_mod (Z.of_nat k) 32 ltac:(lia)) as Hdiv.
    pose proof (Z.mod_pos_bound (Z.of_nat k) 32 ltac:(lia)) as Hmod.
    assert (0 ≤ Z.of_nat k / 32) by (apply Z.div_pos; lia).
    rewrite list_slice_take_drop by lia. rewrite length_take, length_drop. lia.
  - exists e. split; [done|]. by apply list_elem_of_lookup_2 in He.
Qed.

(** X17: when the embedding service answers every batch with as many
    vectors as texts, none of them empty, the script's call of
    [add_documents] on the embedded chunks passes one embedding for each id,
    and the embedding at each position is the vector the service returned
    for the chunk at this position. *)
Theorem script_stores_aligned_embeddings (all_chunks : list APIDocument.t) :
  (∀ i texts, length (embed_batch i texts) = length texts) →
  (∀ i texts, Forall (λ e, e ≠ []) (embed_batch i texts)) →
  all_chunks ≠ [] →
  let call := add_documents (script_embed_chunks embed_batch all_chunks) in
  ids call = map APIDocument.id all_chunks
  ∧ documents call = map APIDocument.content all_chunks
  ∧ ∃ es,
      embeddings call = Some es
      ∧ length es = length (ids call)
      ∧ ∀ k, (k < length all_chunks)%nat →
             es !! k = embedding_for embed_batch all_chunks k.
Proof.
  intros Hlen Hne Hchunks call.
  destruct (script_embed_chunks_lookup embed_batch all_chunks) as [Hlength Hlookup].
  set (embedded_chunks := script_embed_chunks embed_batch all_chunks) in *.
  assert (Hemb : ∀ k, (k < length all_chunks)%nat →
             ∃ doc e, embedded_chunks !! k = Some doc
                      ∧ APIDocument.embedding doc = Some e
                      ∧ embedding_for embed_batch all_chunks k = Some e
                      ∧ has_embedding doc = true).
  { intros k Hk.
    destruct (lookup_lt_is_Some_2 all_chunks k Hk) as [chunk Hchunk].
    destruct (embedding_for_answered all_chunks k Hlen Hk) as (e & He & Hin).
    exists (set_embedding chunk e), e.
    rewrite (Hlookup k chunk Hchunk). unfold embedded. rewrite He.
    repeat split; try done.
    unfold has_embedding. simpl.
    pose proof (proj1 (Forall_forall _ _) (Hne _ _) e Hin) as Hnil.
    by destruct e. }
  assert (Hall : Forall (λ doc, has_embedding doc = true) embedded_chunks).
  { apply Forall_lookup. intros k doc Hdoc.
    destruct (Hemb k) as (doc' & e & Hdoc' & _ & _ & Hhas).
    - apply lookup_lt_Some in Hdoc. lia.
    - congruence. }
  assert (Hfield : ∀ {B : Type} (field : APIDocument.t → B),
             (∀ chunk e, field (set_embedding chunk e) = field chunk) →
             map field embedded_chunks = map field all_chunks).
  { intros B field Hset. apply list_eq. intros k.
    change (map field ?l) with (field <$> l). rewrite !list_lookup_fmap.
    destruct (all_chunks !! k) as [chunk|] eqn:Hk.
    - rewrite (Hlookup k chunk Hk). simpl. f_equal.
      unfold embedded. by destruct (embedding_for _ _ _).
    - apply lookup_ge_None in Hk.
      rewrite (proj2 (lookup_ge_None _ k)); [done|lia]. }
  unfold call. rewrite add_documents_call. simpl.
  split; [by apply Hfield|]. split; [by apply Hfield|].
  pose proof (stored_embeddings_length embedded_chunks) as [_ Hsame].
  apply Hsame in Hall as Hes.
  pose proof (stored_embeddings_all embedded_chunks Hall) as Hmap.
  exists (omap stored_embedding embedded_chunks).
  split; [|split].
  - destruct (omap stored_embedding embedded_chunks) eqn:Hnil; [|done].
    destruct all_chunks; [done|]. simpl in Hes, Hlength. lia.
  - rewrite length_map. lia.
  - intros k Hk. destruct (Hemb k Hk) as (doc & e & Hdoc & He & Hfor & _).
    rewrite Hfor.
    assert (Hk' : map Some (omap stored_embedding embedded_chunks) !! k = Some (Some e)).
    { rewrite Hmap. change (map ?f ?l) with (f <$> l).
      by rewrite list_lookup_fmap, Hdoc, <- He. }
    change (map ?f ?l) with (f <$> l) in Hk'. rewrite list_lookup_fmap in Hk'.
    destruct (omap stored_embedding embedded_chunks !! k); simpl in Hk'; congruence.
Qed.

End StoredChunks.

Lemma script_stores_aligned_embeddings_witness :
  ∃ es,
    ChromaManager.embeddings
      (ChromaManager.add_documents
         (script_embed_chunks zero_service
            [sample_chunk "a" "first"; sample_chunk "b" "second"]))
    = Some es
    ∧ length es = 2%nat.
Proof.
  destruct (script_stores_aligned_embeddings zero_service
              [sample_chunk "a" "first"; sample_chunk "b" "second"])
    as (_ & _ & es & Hes & Hlen & _).
  - intros i texts. unfold zero_service. apply length_map.
  - intros i texts. unfold zero_service. apply Forall_forall. intros e He.
    apply list_elem_of_In, in_map_iff in He as (? & <- & _). done.
  - done.
  - exists es. split; [exact Hes|exact Hlen].
Defined.

(** A service that returns a vector too few leaves the last chunk of the
    batch without embedding, and the store is handed fewer embeddings than
    ids. *)
Example script_short_answer_misaligns :
  let call :=
    ChromaManager.add_documents
      (script_embed_chunks short_service
         [sample_chunk "a" "first"; sample_chunk "b" "second"]) in
  ChromaManager.ids call = ["a"; "b"]
  ∧ ChromaManager.embeddings call = Some [[0%float; 0%float]].
Proof. vm_compute. done. Qed.

(** ** The metadata stored for the chunks of the pipeline *)

Section StoredMetadata.
Context `{Runtime}.
Import ChromaManager.

Lemma extract_metadata_other_keys (raw_doc : RawDocument.t) (doc_type : DocumentType)
  (key : string) :
  key ∉ ["source_type"; "document_type"; "scraped_at"; "url"; "api_endpoint";
         "extracted_parameters"] →
  DocumentProcessor._extract_metadata raw_doc doc_type !! key = None.
Proof.
  intros Hkey. unfold DocumentProcessor._extract_metadata.
  repeat (apply not_elem_of_cons in Hkey as [? Hkey]).
  destruct (decide (doc_type = PARAMETER));
    destruct (Str.contains "api.nasa.gov" (RawDocument.url raw_doc));
    try destruct (DocumentProcessor.endpoint_after_hash _);
    by simplify_map_eq.
Qed.

(** X18: for every chunk of a document that [_process_single_document]
    returns, the metadata that [add_documents] builds is the chunk's own
    metadata with three more entries: the creation time, the source url,
    which is the raw document's, and, when the chunk has no endpoint, an
    empty [api_endpoint]. The chunk's own entries are handed on as they are,
    the list [extracted_parameters] of a PARAMETER document among them. *)
Theorem add_documents_pipeline_metadata (fuel : nat) (self : DocumentProcessor.t)
  (raw_doc : RawDocument.t) (w w' : World) (pd : ProcessedDocument.t) :
  DocumentProcessor._process_single_document fuel self raw_doc w = (Returned pd, w') →
  Forall (λ doc,
            document_metadata doc
            = <["created_at" := PStr (isoformat (APIDocument.created_at doc))]>
                (<["source_url" := PStr (RawDocument.url raw_doc)]>
                   (<["api_endpoint" :=
                        default (PStr "")
                          (APIDocument.metadata doc !! "api_endpoint")]>
                      (APIDocument.metadata doc)))
            ∧ (DocumentProcessor._classify_document raw_doc = PARAMETER →
               document_metadata doc !! "extracted_parameters"
               = Some (PList (DocumentProcessor._extract_parameters
                                (RawDocument.content raw_doc)))))
    (ProcessedDocument.chunks pd).
Proof.
  intros Hret. pose proof (process_single_outcome fuel self raw_doc w) as Hout.
  destruct (chunk_text _ _ _ _) as [segments|e|]; [|congruence|congruence].
  destruct Hout as (docs & w1 & Hret1 & Hlog & Hdocs).
  rewrite Hret in Hret1. injection Hret1 as -> ->. simpl.
  apply Forall_forall. intros doc Hdoc.
  apply list_elem_of_lookup in Hdoc as [k Hdoc].
  destruct (Forall2_lookup_r _ _ _ _ _ Hdocs Hdoc) as ([i segment] & _ & Hchunk).
  destruct (extract_metadata_base_fields raw_doc
              (DocumentProcessor._classify_document raw_doc))
    as (_ & Htype & _ & _).
  pose proof (extract_metadata_other_keys raw_doc
                (DocumentProcessor._classify_document raw_doc)) as Hother.
  destruct Hchunk as (_ & _ & Hdtype & Hurl & Hendpoint & _ & Hmeta).
  assert (Hinserts : document_metadata doc
            = <["created_at" := PStr (isoformat (APIDocument.created_at doc))]>
                (<["source_url" := PStr (APIDocument.source_url doc)]>
                   (<["api_endpoint" :=
                        default (PStr "")
                          (APIDocument.metadata doc !! "api_endpoint")]>
                      (APIDocument.metadata doc)))).
  { apply document_metadata_inserts.
    - rewrite Hmeta, Hdtype. by simplify_map_eq.
    - rewrite Hmeta. simplify_map_eq. apply Hother.
      repeat (apply not_elem_of_cons; split; [done|]). apply not_elem_of_nil.
    - rewrite Hmeta. simplify_map_eq. apply Hother.
      repeat (apply not_elem_of_cons; split; [done|]). apply not_elem_of_nil.
    - rewrite Hendpoint, Hmeta. by simplify_map_eq. }
  split; [by rewrite Hinserts, Hurl|].
  intros Hparam. rewrite Hinserts. simplify_map_eq. rewrite Hmeta. simplify_map_eq.
  unfold DocumentProcessor._extract_metadata. rewrite Hparam.
  destruct (decide (PARAMETER = PARAMETER)); [|done]. by simplify_map_eq.
Qed.

End StoredMetadata.

Lemma add_documents_pipeline_metadata_witness :
  ∃ pd w',
    DocumentProcessor._process_single_document (H := sample_runtime) 230
      small_processor (sample_doc "http://test.com" gappy_text) sample_world
    = (Returned pd, w')
    ∧ Forall (λ doc,
                ChromaManager.document_metadata doc !! "source_url"
                = Some (PStr "http://test.com"))
        (ProcessedDocument.chunks pd).
Proof.
  eexists _, _. split; [vm_compute; reflexivity|].
  pose proof (add_documents_pipeline_metadata (H := sample_runtime) 230 small_processor
                (sample_doc "http://test.com" gappy_text) sample_world _ _
                ltac:(vm_compute; reflexivity)) as Hall.
  eapply Forall_impl; [exact Hall|].
  intros doc [-> _]. by simplify_map_eq.
Defined.
